(** * Moira data types: a shallow embedding of the alerting core

    The Go package [moira] (data types and their methods) and the search
    entry point of [index/bleve] are embedded here as Rocq functions.

    - Go [int64] and [int] values are integers of [Z] together with the
      two's complement wrap-around [wrap64] applied after every arithmetic
      operation of the source.
    - Go [string] is [string]; Go [map[string]T] is [gmap string T], and a
      missing key reads as the zero value of [T], as in Go.
    - A Go run-time panic is the result [None]. *)

From Stdlib Require Import ZArith Lia Bool List.
From Stdlib Require Import Floats.SpecFloat.
From stdpp Require Import base option list gmap strings fin_maps.

Local Open Scope string_scope.
Local Open Scope Z_scope.

(** ** Machine integers *)

Module Int64.

Definition min_int : Z := - 2 ^ 63.
Definition max_int : Z := 2 ^ 63 - 1.

(** Two's complement reduction of an integer to the [int64] range. *)
Definition wrap64 (z : Z) : Z := (z + 2 ^ 63) mod 2 ^ 64 - 2 ^ 63.

Definition in_range (z : Z) : Prop := min_int <= z <= max_int.

Definition add (a b : Z) : Z := wrap64 (a + b).
Definition sub (a b : Z) : Z := wrap64 (a - b).
Definition mul (a b : Z) : Z := wrap64 (a * b).

(** Go's [%] truncates toward zero: the remainder has the sign of the
    dividend. *)
Definition rem (a b : Z) : Z := Z.rem a b.

End Int64.

Import Int64.

(** ** State tables *)

Definition eventStates : list string :=
  ["OK"; "WARN"; "ERROR"; "NODATA"; "EXCEPTION"; "TEST"].

Definition scores : gmap string Z :=
  list_to_map
    [("OK", 0); ("DEL", 0); ("WARN", 1); ("ERROR", 100);
     ("NODATA", 1000); ("EXCEPTION", 100000)].

Definition eventStateWeight : gmap string Z :=
  list_to_map [("OK", 0); ("WARN", 1); ("ERROR", 100); ("NODATA", 10000)].

(** ** Records *)

Abbreviation float64 := spec_float.

Module NotificationEvent.
Record t := mk {
  IsTriggerEvent : bool;
  Timestamp : Z;
  Metric : string;
  Value : option float64;
  State : string;
  TriggerID : string;
  SubscriptionID : option string;
  ContactID : string;
  OldState : string;
  Message : option string
}.
End NotificationEvent.

Abbreviation NotificationEvents := (list NotificationEvent.t).

Module PlottingData.
Record t := mk { Enabled : bool; Theme : string }.
End PlottingData.

Module ScheduleDataDay.
Record t := mk { Enabled : bool; Name : string }.
End ScheduleDataDay.

Module ScheduleData.
Record t := mk {
  Days : list ScheduleDataDay.t;
  TimezoneOffset : Z;
  StartOffset : Z;
  EndOffset : Z
}.
End ScheduleData.

Module SubscriptionData.
Record t := mk {
  Contacts : list string;
  Tags : list string;
  Schedule : ScheduleData.t;
  Plotting : PlottingData.t;
  ID : string;
  Enabled : bool;
  IgnoreWarnings : bool;
  IgnoreRecoverings : bool;
  ThrottlingEnabled : bool;
  User : string
}.
End SubscriptionData.

(** ** Go maps

    A Go map value is nil or refers to a table.  Reading a nil map is
    reading an empty table; assigning to an entry of a nil map panics. *)

Definition GoMap (V : Type) : Type := option (gmap string V).

Definition table {V} (m : GoMap V) : gmap string V := default ∅ m.

(** [v, ok := m[k]] *)
Definition map_lookup {V} (m : GoMap V) (k : string) : option V :=
  table m !! k.

(** [m[k]] with the zero value [zero] of the element type. *)
Definition map_index {V} (zero : V) (m : GoMap V) (k : string) : V :=
  default zero (map_lookup m k).

(** [m[k] = v]; [None] is the panic on a nil map. *)
Definition map_assign {V} (m : GoMap V) (k : string) (v : V)
    : option (GoMap V) :=
  match m with
  | None => None
  | Some t => Some (Some (<[k := v]> t))
  end.

(** ** Check data *)

Module MetricState.
Record t := mk {
  EventTimestamp : Z;
  State : string;
  Suppressed : bool;
  SuppressedState : string;
  Timestamp : Z;
  Value : option float64;
  Maintenance : Z
}.
(** The zero value of the struct. *)
Definition zero : t := mk 0 "" false "" 0 None 0.
End MetricState.

Module CheckData.
Record t := mk {
  Metrics : GoMap MetricState.t;
  Score : Z;
  State : string;
  Maintenance : Z;
  Timestamp : Z;
  EventTimestamp : Z;
  LastSuccessfulCheckTimestamp : Z;
  Suppressed : bool;
  SuppressedState : string;
  Message : string
}.
Definition set_Metrics (m : GoMap MetricState.t) (c : t) : t :=
  mk m (Score c) (State c) (Maintenance c) (Timestamp c) (EventTimestamp c)
     (LastSuccessfulCheckTimestamp c) (Suppressed c) (SuppressedState c)
     (Message c).
Definition set_Score (v : Z) (c : t) : t :=
  mk (Metrics c) v (State c) (Maintenance c) (Timestamp c) (EventTimestamp c)
     (LastSuccessfulCheckTimestamp c) (Suppressed c) (SuppressedState c)
     (Message c).
End CheckData.

(** ** GetSubjectState *)

(** The first loop: [states[event.State] = true] for every event. *)
Definition collect_states (events : NotificationEvents) : gmap string bool :=
  foldl (fun states event => <[NotificationEvent.State event := true]> states)
        ∅ events.

(** The second loop over a table of states: the result is overwritten by
    every state of the table that is set in [states]. *)
Definition last_present (states : gmap string bool) (order : list string)
    (result : string) : string :=
  foldl (fun result state =>
           if default false (states !! state) then state else result)
        result order.

Definition GetSubjectState (events : NotificationEvents) : string :=
  last_present (collect_states events) eventStates "".

(** Position of a state in a table of states (the length of the table
    when it is absent). *)
Fixpoint position (state : string) (order : list string) : nat :=
  match order with
  | [] => 0%nat
  | x :: order' =>
    if decide (x = state) then 0%nat else S (position state order')
  end.

(** ** UpdateScore *)

(** [scores[state]]: a state outside the table reads 0. *)
Definition score_of (state : string) : Z := default 0 (scores !! state).

(** The loop of [UpdateScore] over the metrics in a given order of
    enumeration. *)
Definition add_scores (acc : Z) (metrics : list (string * MetricState.t)) : Z :=
  foldl (fun acc kv => Int64.add acc (score_of (MetricState.State kv.2)))
        acc metrics.

(** [UpdateScore] returns the updated check data and the returned score.
    Go enumerates a map in an unspecified order; [map_to_list] is one such
    order, and [add_scores_order] below shows that the order is
    irrelevant. *)
Definition UpdateScore (checkData : CheckData.t) : CheckData.t * Z :=
  let score :=
    add_scores (score_of (CheckData.State checkData))
               (map_to_list (table (CheckData.Metrics checkData))) in
  let checkData := CheckData.set_Score score checkData in
  (checkData, CheckData.Score checkData).

(** The severity weights as the specification lists them. *)
Definition severity_weight (state : string) : Z :=
  if decide (state = "OK") then 0
  else if decide (state = "DEL") then 0
  else if decide (state = "WARN") then 1
  else if decide (state = "ERROR") then 100
  else if decide (state = "NODATA") then 1000
  else if decide (state = "EXCEPTION") then 100000
  else 0.

(** Sum of weight(metric.state) over a list of metrics, in [Z]. *)
Definition severity_sum (metrics : list (string * MetricState.t)) : Z :=
  foldr (fun kv acc => severity_weight (MetricState.State kv.2) + acc) 0
        metrics.

(** weight(check.state) + sum of weight(metric.state), in [Z]. *)
Definition severity_total (checkData : CheckData.t) : Z :=
  severity_weight (CheckData.State checkData)
  + severity_sum (map_to_list (table (CheckData.Metrics checkData))).

(** ** GetOrCreateMetricState *)

(** [time.Now().Unix()] is the argument [unixNow]: the reading of the wall
    clock at the call. *)
Definition createEmptyMetricState (unixNow : Z) (defaultTimestampValue : Z)
    (firstStateIsNodata : bool) : MetricState.t :=
  if firstStateIsNodata then
    MetricState.mk 0 "NODATA" false "" defaultTimestampValue None 0
  else
    MetricState.mk unixNow "OK" false "" unixNow None 0.

(** The result is the updated check data and the returned state, or [None]
    when the call panics. *)
Definition GetOrCreateMetricState (unixNow : Z) (checkData : CheckData.t)
    (metric : string) (emptyTimestampValue : Z) (muteNewMetric : bool)
    : option (CheckData.t * MetricState.t) :=
  let ok := bool_decide (is_Some (map_lookup (CheckData.Metrics checkData) metric)) in
  checkData ←
    (if negb ok then
       metrics ← map_assign (CheckData.Metrics checkData) metric
                   (createEmptyMetricState unixNow emptyTimestampValue
                      (negb muteNewMetric));
       Some (CheckData.set_Metrics metrics checkData)
     else Some checkData);
  Some (checkData,
        map_index MetricState.zero (CheckData.Metrics checkData) metric).

(** ** Time

    The instants of Go's [time] package, as the source makes and compares
    them.  A [time.Time] made by [time.Unix] carries no monotonic reading:
    it holds the seconds elapsed since 1 January of year 1 in a 64-bit
    integer, [ext], and the nanoseconds within the second, [nsec].  A
    [time.Duration] is a 64-bit count of nanoseconds.  [UTC] sets the
    location only; for a time in UTC no operation below reads it. *)

Module Time.

Record t : Type := mk { ext : Z; nsec : Z }.

Definition Second : Z := 1000000000.
Definition Minute : Z := 60 * Second.
Definition Hour : Z := 60 * Minute.

Definition secondsPerDay : Z := 86400.
Definition secondsPerWeek : Z := 7 * secondsPerDay.

(** The seconds from year 1 to 1970. *)
Definition unixToInternal : Z :=
  Eval vm_compute in
    (1969 * 365 + 1969 / 4 - 1969 / 100 + 1969 / 400) * secondsPerDay.

Definition internalToUnix : Z := - unixToInternal.

(** The seconds from the absolute zero year of the package, year
    -292277022399, to year 1: 292277022400 years of 365.2425 days. *)
Definition internalToAbsolute : Z :=
  Eval vm_compute in 292277022400 * 3652425 / 10000 * secondsPerDay.

(** [time.Unix(sec, nsec)]: nanoseconds outside [0, 1e9) are carried into
    the seconds; the seconds are stored from year 1, in 64 bits. *)
Definition Unix (sec nsec : Z) : t :=
  let '(sec, nsec) :=
    if (nsec <? 0) || (1000000000 <=? nsec) then
      let n := nsec ÷ 1000000000 in
      let sec := Int64.add sec n in
      let nsec := Int64.sub nsec (Int64.mul n 1000000000) in
      if nsec <? 0
      then (Int64.sub sec 1, Int64.add nsec 1000000000)
      else (sec, nsec)
    else (sec, nsec) in
  mk (Int64.add sec unixToInternal) nsec.

(** [t.addSec(d)]: on overflow the seconds stay at the largest or at the
    smallest value. *)
Definition addSec (x : t) (d : Z) : t :=
  let sum := Int64.add (ext x) d in
  if Bool.eqb (ext x <? sum) (0 <? d) then mk sum (nsec x)
  else if 0 <? d then mk (2 ^ 63 - 1) (nsec x)
  else mk (- (2 ^ 63 - 1)) (nsec x).

(** [t.Add(d)].  The nanoseconds are a 32-bit integer; the sum below is
    under 2e9 in magnitude and fits. *)
Definition Add (x : t) (d : Z) : t :=
  let dsec := d ÷ 1000000000 in
  let nsec := nsec x + Z.rem d 1000000000 in
  let '(dsec, nsec) :=
    if 1000000000 <=? nsec then (dsec + 1, nsec - 1000000000)
    else if nsec <? 0 then (dsec - 1, nsec + 1000000000)
    else (dsec, nsec) in
  addSec (mk (ext x) nsec) dsec.

Definition Before (x y : t) : bool :=
  (ext x <? ext y) || ((ext x =? ext y) && (nsec x <? nsec y)).

Definition After (x y : t) : bool :=
  (ext y <? ext x) || ((ext x =? ext y) && (nsec y <? nsec x)).

Definition Equal (x y : t) : bool :=
  (ext x =? ext y) && (nsec x =? nsec y).

Definition unixSec (x : t) : Z := Int64.add (ext x) internalToUnix.

(** [t.abs()] in UTC: the seconds from the absolute zero year, an unsigned
    64-bit integer. *)
Definition abs (x : t) : Z :=
  Int64.add (unixSec x) (unixToInternal + internalToAbsolute) `mod` 2 ^ 64.

(** [t.Weekday()]: Sunday is 0; 1 January of the absolute zero year was a
    Monday. *)
Definition Weekday (x : t) : Z :=
  (((abs x + 1 * secondsPerDay) `mod` 2 ^ 64) `mod` secondsPerWeek)
  ÷ secondsPerDay.

End Time.

(** ** IsScheduleAllows *)

(** The receiver is a pointer: [None] is the nil schedule.  The result
    [None] is the panic of an index out of range in [schedule.Days]. *)
Definition IsScheduleAllows (schedule : option ScheduleData.t) (ts : Z)
    : option bool :=
  match schedule with
  | None => Some true
  | Some schedule =>
    let endOffset := ScheduleData.EndOffset schedule in
    let startOffset := ScheduleData.StartOffset schedule in
    let endOffset :=
      if ScheduleData.EndOffset schedule <? ScheduleData.StartOffset schedule
      then Int64.add (ScheduleData.EndOffset schedule) (24 * 60)
      else endOffset in
    let timestamp :=
      Int64.sub (Int64.sub ts (Int64.rem ts 60))
                (Int64.mul (ScheduleData.TimezoneOffset schedule) 60) in
    let date := Time.Unix timestamp 0 in
    day ← ScheduleData.Days schedule
            !! Z.to_nat (Int64.rem (Int64.add (Time.Weekday date) 6) 7);
    if negb (ScheduleDataDay.Enabled day) then Some false
    else
      let dayStart :=
        Time.Unix (Int64.sub timestamp (Int64.rem timestamp (24 * 3600))) 0 in
      let startDayTime :=
        Time.Add dayStart (Int64.mul startOffset Time.Minute) in
      let endDayTime :=
        Time.Add dayStart (Int64.mul endOffset Time.Minute) in
      if endOffset <? 24 * 60 then
        if (Time.After date startDayTime || Time.Equal date startDayTime)
           && (Time.Before date endDayTime || Time.Equal date endDayTime)
        then Some true
        else Some false
      else
        let endDayTime := Time.Add endDayTime (Int64.mul (- Time.Hour) 24) in
        if Time.Before date endDayTime || Time.After date startDayTime
        then Some true
        else Some false
  end.

(** The local time of a timestamp, as the specification words it: seconds
    from the epoch shifted by the timezone offset, cut to the minute. *)
Definition local_seconds (schedule : ScheduleData.t) (ts : Z) : Z :=
  ts - ts `mod` 60 - ScheduleData.TimezoneOffset schedule * 60.

(** Minute of the local day, 0 to 1439. *)
Definition minute_of_day (schedule : ScheduleData.t) (ts : Z) : Z :=
  (local_seconds schedule ts `mod` 86400) `div` 60.

(** Day of the local week, Monday = 0 to Sunday = 6. *)
Definition day_of_week (schedule : ScheduleData.t) (ts : Z) : nat :=
  Z.to_nat ((local_seconds schedule ts `div` 86400 + 3) `mod` 7).

Definition day_enabled (schedule : ScheduleData.t) (ts : Z) : bool :=
  match ScheduleData.Days schedule !! day_of_week schedule ts with
  | Some day => ScheduleDataDay.Enabled day
  | None => false
  end.

(** Civil timestamps: the timestamp and the local time lie between 0,
    the epoch, and 2^62 seconds, and the timezone offset between -2^32 and
    2^32 minutes.  There the 64-bit arithmetic of the source and of the
    [time] package does not overflow, and the remainders of Go, which
    truncate toward zero, are the usual ones. *)
Definition civil (schedule : ScheduleData.t) (ts : Z) : Prop :=
  0 <= ts <= 2 ^ 62
  /\ - 2 ^ 32 <= ScheduleData.TimezoneOffset schedule <= 2 ^ 32
  /\ 0 <= local_seconds schedule ts <= 2 ^ 62.

Definition every_day (enabled : bool) : list ScheduleDataDay.t :=
  [ScheduleDataDay.mk enabled "Mon"; ScheduleDataDay.mk enabled "Tue";
   ScheduleDataDay.mk enabled "Wed"; ScheduleDataDay.mk enabled "Thu";
   ScheduleDataDay.mk enabled "Fri"; ScheduleDataDay.mk enabled "Sat";
   ScheduleDataDay.mk enabled "Sun"].

(** ** GetCheckPoint

    Go's [float64] is IEEE 754 binary64: the conversions and the
    comparison are those of the standard library's specification of
    floating-point numbers at precision 53. *)

Module Float64.

Definition prec : Z := 53.
Definition emax : Z := 1024.

(** [float64(z)]: the nearest binary64 number, ties to even. *)
Definition of_int (z : Z) : float64 := binary_normalize prec emax z 0 false.

(** [math.Max]: +Inf wins, then NaN; of two zeros the result is -0 only
    when both are; otherwise [x] when [x > y] and [y] when not. *)
Definition Max (x y : float64) : float64 :=
  match x, y with
  | S754_infinity false, _ | _, S754_infinity false => S754_infinity false
  | S754_nan, _ | _, S754_nan => S754_nan
  | S754_zero sx, S754_zero _ => if sx then y else x
  | _, _ => if SFltb y x then x else y
  end.

(** The integer part of a finite number, rounded toward zero. *)
Definition truncate (x : float64) : option Z :=
  match x with
  | S754_zero _ => Some 0
  | S754_finite s m e =>
    let magnitude :=
      if 0 <=? e then Z.pos m * 2 ^ e else Z.pos m `div` 2 ^ (- e) in
    Some (if s then - magnitude else magnitude)
  | S754_infinity _ | S754_nan => None
  end.

(** [int64(x)].  The language leaves the result to the implementation
    when the value does not fit; that case is [None]. *)
Definition to_int64 (x : float64) : option Z :=
  z ← truncate x;
  if (Int64.min_int <=? z) && (z <=? Int64.max_int) then Some z else None.

End Float64.

Definition GetCheckPoint (metricState : MetricState.t) (checkPointGap : Z)
    : option Z :=
  Float64.to_int64
    (Float64.Max
       (Float64.of_int
          (Int64.sub (MetricState.Timestamp metricState) checkPointGap))
       (Float64.of_int (MetricState.EventTimestamp metricState))).

(** ** Trigger index search *)

Module Bleve.

Inductive error := ErrorIndexClosed.

(** [bleve.SearchRequest], with the fields the source sets. *)
Record SearchRequest (Q : Type) := mkRequest {
  Query : Q;
  Size : Z;
  From : Z;
  Explain : bool;
  Sort : list string;
  Highlight : bool
}.
Arguments mkRequest {Q}.
Arguments Query {Q}.
Arguments Size {Q}.
Arguments From {Q}.

(** A hit: the document id and the highlighted fragments by field. *)
Record DocumentMatch := mkMatch {
  ID : string;
  Fragments : gmap string (list string)
}.

Record SearchResult := mkResult {
  Total : Z;
  Hits : list DocumentMatch
}.

(** The interface [bleve.Index], as far as the source calls it.
    [DocCount] returns an unsigned 64-bit count and an error. *)
Class Index (I Q : Type) := {
  DocCount : I -> Z * option error;
  Search : I -> SearchRequest Q -> SearchResult + error
}.

End Bleve.

(** What the source takes from the packages [mapping] and from
    [buildSearchQuery], which are not part of the translated files: the
    names of the indexed fields and the construction of the query. *)
Record SearchEnv (Q : Type) := mkEnv {
  TriggerName : string;
  TriggerDesc : string;
  TriggerLastCheckScore : string;
  splitStringToTerms : string -> list string;
  buildSearchQuery : list string -> list string -> bool -> Q
}.
Arguments TriggerName {Q}.
Arguments TriggerDesc {Q}.
Arguments TriggerLastCheckScore {Q}.
Arguments splitStringToTerms {Q}.
Arguments buildSearchQuery {Q}.

Module SearchHighLights.
Record t := mk { Name : string; Desc : string }.
End SearchHighLights.

Module TriggerSearchResult.
Record t := mk { TriggerID : string; HighLights : SearchHighLights.t }.
End TriggerSearchResult.

Definition buildSearchRequest {Q} (env : SearchEnv Q)
    (filterTags : list string) (searchString : string) (onlyErrors : bool)
    (page size : Z) : Bleve.SearchRequest Q :=
  let searchTerms := splitStringToTerms env searchString in
  let searchQuery := buildSearchQuery env filterTags searchTerms onlyErrors in
  let from := Int64.mul page size in
  Bleve.mkRequest searchQuery size from false
    [String.append "-" (TriggerLastCheckScore env); "_score"; TriggerName env]
    true.

(** The fragments of a field, concatenated; nothing when the field has no
    fragments. *)
Definition highlights (hit : Bleve.DocumentMatch) (field : string) : string :=
  match Bleve.Fragments hit !! field with
  | Some fragments => foldl String.append "" fragments
  | None => ""
  end.

(** The result built from a hit: the body of the loop over the hits. *)
Definition result_of_hit {Q} (env : SearchEnv Q) (result : Bleve.DocumentMatch)
    : TriggerSearchResult.t :=
  TriggerSearchResult.mk (Bleve.ID result)
    (SearchHighLights.mk (highlights result (TriggerName env))
                         (highlights result (TriggerDesc env))).

(** [TriggerIndex.Search]: the results, the total and the error.  The
    outer [None] is the panic of [make] on a negative capacity. *)
Definition Search {I Q} `{Bleve.Index I Q} (env : SearchEnv Q) (index : I)
    (filterTags : list string) (searchString : string) (onlyErrors : bool)
    (page size : Z)
    : option (list TriggerSearchResult.t * Z * option Bleve.error) :=
  let '(page, size) :=
    if size <? 0
    then (0, Int64.wrap64 (Bleve.DocCount index).1)
    else (page, size) in
  let req := buildSearchRequest env filterTags searchString onlyErrors
               page size in
  match Bleve.Search index req with
  | inr err => Some ([], 0, Some err)
  | inl searchResult =>
    let total := Int64.wrap64 (Bleve.Total searchResult) in
    if (length (Bleve.Hits searchResult) =? 0)%nat
    then Some ([], total, None)
    else if total <? 0 then None
    else Some (map (result_of_hit env) (Bleve.Hits searchResult), total, None)
  end.

(** An index given by the list of its documents, standing for the bleve
    library, which is not part of the sources. *)
Module ListIndex.

Record t (D : Type) := mk { documents : list D; closed : bool }.
Arguments documents {D}.
Arguments closed {D}.

(** How documents answer a query: the must-match test, the order of the
    hits and the hit shown for a document. *)
Record Matcher (D Q : Type) := mkMatcher {
  matches : Q -> D -> bool;
  before : Q -> D -> D -> bool;
  hit : Q -> D -> Bleve.DocumentMatch
}.
Arguments matches {D Q}.
Arguments before {D Q}.
Arguments hit {D Q}.

Fixpoint insert_sorted {D} (le : D -> D -> bool) (x : D) (l : list D)
    : list D :=
  match l with
  | [] => [x]
  | y :: l' => if le x y then x :: l else y :: insert_sorted le x l'
  end.

Definition sort {D} (le : D -> D -> bool) : list D -> list D :=
  foldr (insert_sorted le) [].

(** Modelled from the spec: the hits of a search, missing with the bleve
    library.  Section 4.E: the documents that match the query, in the
    total order of the request. *)
Definition all_hits {D Q} (m : Matcher D Q) (index : t D) (query : Q)
    : list Bleve.DocumentMatch :=
  map (hit m query)
      (sort (before m query) (List.filter (matches m query) (documents index))).

(** Modelled from the spec: the document count of the bleve index, the
    number of indexed documents; a closed index answers an error. *)
Definition DocCount {D} (index : t D) : Z * option Bleve.error :=
  if closed index then (0, Some Bleve.ErrorIndexClosed)
  else (Z.of_nat (length (documents index)), None).

(** Modelled from the spec: the search of the bleve index.  Section 4.E:
    the total is the count of all hits, and the page is the [Size] hits
    from offset [From]. *)
Definition Search {D Q} (m : Matcher D Q) (index : t D)
    (req : Bleve.SearchRequest Q) : Bleve.SearchResult + Bleve.error :=
  if closed index then inr Bleve.ErrorIndexClosed
  else
    let found := all_hits m index (Bleve.Query req) in
    inl (Bleve.mkResult (Z.of_nat (length found))
           (take (Z.to_nat (Bleve.Size req))
                 (drop (Z.to_nat (Bleve.From req)) found))).

Definition index_of {D Q} (m : Matcher D Q) : Bleve.Index (t D) Q :=
  {| Bleve.DocCount := DocCount; Bleve.Search := Search m |}.

End ListIndex.

(** ** MustIgnore *)

(** [MustIgnore]: both states are looked up in [eventStateWeight]; the
    two nested [if ..., ok] of the source are the two matches.  The weights
    are of type [int], 64 bits wide on the platforms the program is built
    for. *)
Definition MustIgnore (subscription : SubscriptionData.t)
    (eventData : NotificationEvent.t) : bool :=
  match eventStateWeight !! NotificationEvent.OldState eventData with
  | Some oldStateWeight =>
    match eventStateWeight !! NotificationEvent.State eventData with
    | Some newStateWeight =>
      let delta := Int64.sub newStateWeight oldStateWeight in
      if delta <? 0 then
        if (delta =? -1)
           && (SubscriptionData.IgnoreRecoverings subscription
               || SubscriptionData.IgnoreWarnings subscription)
        then true
        else SubscriptionData.IgnoreRecoverings subscription
      else if delta =? 1 then SubscriptionData.IgnoreWarnings subscription
      else false
    | None => false
    end
  | None => false
  end.

(** The weights of the ignore policy as the specification lists them. *)
Definition policy_weight (state : string) : Z :=
  if decide (state = "OK") then 0
  else if decide (state = "WARN") then 1
  else if decide (state = "ERROR") then 100
  else if decide (state = "NODATA") then 10000
  else 0.

Definition policy_states : list string := ["OK"; "WARN"; "ERROR"; "NODATA"].

Definition policy_delta (eventData : NotificationEvent.t) : Z :=
  policy_weight (NotificationEvent.State eventData)
  - policy_weight (NotificationEvent.OldState eventData).

(** ** Auxiliary definitions of the proofs and sample values *)

Definition sample_event (oldState state : string) : NotificationEvent.t :=
  NotificationEvent.mk false 0 "m" None state "t" None "" oldState None.

Definition sample_subscription (ignoreWarnings ignoreRecoverings : bool)
    : SubscriptionData.t :=
  SubscriptionData.mk [] [] (ScheduleData.mk (every_day true) 0 0 1439)
    (PlottingData.mk false "") "s" true ignoreWarnings ignoreRecoverings true
    "u".

Definition sample_metric (state : string) : MetricState.t :=
  MetricState.mk 0 state false "" 0 None 0.

Definition sample_check : CheckData.t :=
  CheckData.mk
    (Some (<["a" := sample_metric "ERROR"]>
             (<["b" := sample_metric "NODATA"]>
                (<["c" := sample_metric "WARN"]> ∅))))
    0 "EXCEPTION" 0 0 0 0 false "" "".

(** A check as Go's zero value leaves it: the metrics map is nil. *)
Definition unallocated_check : CheckData.t :=
  CheckData.mk None 0 "OK" 0 0 0 0 false "" "".

(** A state whose timestamp is the first integer that is not a binary64
    number. *)
Definition late_state : MetricState.t :=
  MetricState.mk 0 "OK" false "" (2 ^ 53 + 1) None 0.

Definition sample_events : NotificationEvents :=
  [sample_event "OK" "NODATA"; sample_event "OK" "WARN";
   sample_event "WARN" "OK"].

(** From 22:00 to 06:00, every day, in UTC. *)
Definition night_schedule : ScheduleData.t :=
  ScheduleData.mk (every_day true) 0 1320 360.

(** From 10:00 to 10:00, every day, in UTC. *)
Definition minute_schedule : ScheduleData.t :=
  ScheduleData.mk (every_day true) 0 600 600.

(** The window test of the source, on the minute of the local day. *)
Definition in_window (startOffset endOffset minute : Z) : bool :=
  if endOffset <? startOffset
  then (minute <? endOffset) || (startOffset <? minute)
  else (startOffset <=? minute) && (minute <=? endOffset).

(** The binary64 form of a positive integer up to 2^53: the mantissa is
    the integer shifted to 53 digits, the exponent undoes the shift. *)
Definition normal_exponent (p : positive) : Z := Z.pos (digits2_pos p) - 53.

Definition normal_mantissa (p : positive) : positive :=
  match normal_exponent p with
  | Z.neg k => Pos.iter xO p k
  | Z0 => p
  | Z.pos _ => Pos.div2 p
  end.

(** The integers up to 2^53 in magnitude, all of them binary64 numbers. *)
Definition safe_integer (z : Z) : Prop := - 2 ^ 53 <= z <= 2 ^ 53.

Definition sample_env : SearchEnv (list string) :=
  mkEnv (list string) "name" "desc" "last_check_score"
        (fun searchString => [searchString])
        (fun filterTags searchTerms onlyErrors =>
           (filterTags ++ searchTerms)%list).

Definition sample_matcher : ListIndex.Matcher (string * Z) (list string) :=
  ListIndex.mkMatcher (string * Z) (list string)
    (fun query doc => bool_decide (doc.1 ∈ query))
    (fun query doc doc' => doc'.2 <=? doc.2)
    (fun query doc => Bleve.mkMatch doc.1 ∅).

Definition sample_index : ListIndex.t (string * Z) :=
  ListIndex.mk (string * Z) [("t_ok", 0); ("t_error", 100); ("t_nodata", 1000)]
               false.

(** ** Further methods of the data types *)

Module TriggerData.
Record t := mk {
  ID : string;
  Name : string;
  Desc : string;
  Targets : list string;
  WarnValue : float64;
  ErrorValue : float64;
  IsRemote : bool;
  Tags : list string
}.
End TriggerData.

Module Trigger.
Record t := mk {
  ID : string;
  Name : string;
  Desc : option string;
  Targets : list string;
  WarnValue : option float64;
  ErrorValue : option float64;
  TriggerType : string;
  Tags : list string;
  TTLState : option string;
  TTL : Z;
  Schedule : option ScheduleData.t;
  Expression : option string;
  PythonExpression : option string;
  Patterns : list string;
  IsRemote : bool;
  MuteNewMetrics : bool
}.
End Trigger.

(** [GetTags]: the buffer receives [fmt.Sprintf("[%s]", tag)] for every
    tag in turn. *)
Definition GetTags (trigger : TriggerData.t) : string :=
  foldl (fun buffer tag => buffer ++ ("[" ++ tag ++ "]"))%string ""
        (TriggerData.Tags trigger).

(** [MetricState.GetEventTimestamp] *)
Definition MetricState_GetEventTimestamp (metricState : MetricState.t) : Z :=
  if MetricState.EventTimestamp metricState =? 0
  then MetricState.Timestamp metricState
  else MetricState.EventTimestamp metricState.

(** [CheckData.GetEventTimestamp] *)
Definition CheckData_GetEventTimestamp (checkData : CheckData.t) : Z :=
  if CheckData.EventTimestamp checkData =? 0
  then CheckData.Timestamp checkData
  else CheckData.EventTimestamp checkData.

(** [strings.ContainsAny(s, chars)] for [chars] made of ASCII characters:
    some byte of [s] is one of [chars].  (An ASCII byte of a Go string is
    always a code point of its own.) *)
Definition ContainsAny (s chars : string) : bool :=
  existsb (fun c => existsb (Ascii.eqb c) (String.list_ascii_of_string chars))
          (String.list_ascii_of_string s).

(** The loop of [IsSimple] over the patterns, with its early return. *)
Fixpoint no_wildcard (patterns : list string) : bool :=
  match patterns with
  | [] => true
  | pattern :: patterns' =>
    if ContainsAny pattern "*{?[" then false else no_wildcard patterns'
  end.

Definition IsSimple (trigger : Trigger.t) : bool :=
  if (1 <? length (Trigger.Targets trigger))%nat
     || (1 <? length (Trigger.Patterns trigger))%nat
  then false
  else no_wildcard (Trigger.Patterns trigger).

(** The states that weigh on the score. *)
Definition alarming_states : list string :=
  ["WARN"; "ERROR"; "NODATA"; "EXCEPTION"].

(** The state [createEmptyMetricState] builds, field by field. *)
Definition fresh_state (unixNow from : Z) (muteNewMetric : bool)
    : MetricState.t :=
  if muteNewMetric
  then MetricState.mk unixNow "OK" false "" unixNow None 0
  else MetricState.mk 0 "NODATA" false "" from None 0.

(** Of two subject states, the one that stands later in [eventStates];
    the empty string stands for no state. *)
Definition later_state (x y : string) : string :=
  if decide (y = "") then x
  else if decide (x = "") then y
  else if (position x eventStates <=? position y eventStates)%nat then y
  else x.

(** The schedule read in UTC: the same days and window, no offset. *)
Definition in_utc (schedule : ScheduleData.t) : ScheduleData.t :=
  ScheduleData.mk (ScheduleData.Days schedule) 0
    (ScheduleData.StartOffset schedule) (ScheduleData.EndOffset schedule).

(** A tag between its brackets. *)
Definition bracketed (tag : string) : string := ("[" ++ tag ++ "]")%string.

Import (notations) Stdlib.Strings.Ascii.

(** The byte [c] occurs in the string [s]. *)
Definition occurs (c : Ascii.ascii) (s : string) : Prop :=
  c ∈ String.list_ascii_of_string s.

Arguments occurs c%_char s%_string.

Definition sample_trigger_data (tags : list string) : TriggerData.t :=
  TriggerData.mk "t" "name" "desc" [] (S754_zero false) (S754_zero false)
                 false tags.

Definition sample_trigger (targets patterns : list string) : Trigger.t :=
  Trigger.mk "t" "name" None targets None None "rising" [] None 600 None None
             None patterns false false.

(** ** Search terms *)

(** The character class of [escapeString]: the double quote, written by
    its code, and the other characters as they stand in the source. *)
Definition special_characters : list Ascii.ascii :=
  Ascii.ascii_of_nat 34
  :: String.list_ascii_of_string "|+-=&<>!(){}[]^'~*?\/.,:;_@".

Definition is_special (c : Ascii.ascii) : bool :=
  existsb (Ascii.eqb c) special_characters.

(** [escapeString]: every character of the class becomes a space.  The
    characters of the class are ASCII, so the replacement acts byte by
    byte. *)
Fixpoint escapeString (original : string) : string :=
  match original with
  | EmptyString => EmptyString
  | String c rest =>
    String (if is_special c then " "%char else c) (escapeString rest)
  end.

(** The value of a byte. *)
Definition byte (c : Ascii.ascii) : Z := Z.of_N (Ascii.N_of_ascii c).

Definition RuneError : Z := 65533.

(** Continuation bytes of UTF-8, 0x80 to 0xBF. *)
Definition continuation (b : Z) : bool := (128 <=? b) && (b <=? 191).

(** [utf8.DecodeRuneInString]: the first code point of the string and its
    width in bytes; an invalid or cut encoding gives [RuneError] and width
    1, the empty string width 0. *)
Definition decodeRune (s : string) : Z * nat :=
  match s with
  | EmptyString => (RuneError, 0%nat)
  | String c0 rest =>
    let s0 := byte c0 in
    if s0 <? 128 then (s0, 1%nat)
    else if s0 <? 194 then (RuneError, 1%nat)
    else if s0 <? 224 then
      match rest with
      | String c1 _ =>
        let s1 := byte c1 in
        if continuation s1
        then (Z.land s0 31 * 64 + Z.land s1 63, 2%nat)
        else (RuneError, 1%nat)
      | EmptyString => (RuneError, 1%nat)
      end
    else if s0 <? 240 then
      match rest with
      | String c1 (String c2 _) =>
        let s1 := byte c1 in
        let s2 := byte c2 in
        let lo := if s0 =? 224 then 160 else 128 in
        let hi := if s0 =? 237 then 159 else 191 in
        if (lo <=? s1) && (s1 <=? hi) && continuation s2
        then (Z.land s0 15 * 4096 + Z.land s1 63 * 64 + Z.land s2 63, 3%nat)
        else (RuneError, 1%nat)
      | _ => (RuneError, 1%nat)
      end
    else if s0 <? 245 then
      match rest with
      | String c1 (String c2 (String c3 _)) =>
        let s1 := byte c1 in
        let s2 := byte c2 in
        let s3 := byte c3 in
        let lo := if s0 =? 240 then 144 else 128 in
        let hi := if s0 =? 244 then 143 else 191 in
        if (lo <=? s1) && (s1 <=? hi) && continuation s2 && continuation s3
        then (Z.land s0 7 * 262144 + Z.land s1 63 * 4096
              + Z.land s2 63 * 64 + Z.land s3 63, 4%nat)
        else (RuneError, 1%nat)
      | _ => (RuneError, 1%nat)
      end
    else (RuneError, 1%nat)
  end.

(** [unicode.IsSpace]: tab, line feed, vertical tab, form feed, carriage
    return, space, U+0085 and U+00A0 in Latin-1, and beyond Latin-1 the
    code points of the property White_Space. *)
Definition IsSpace (r : Z) : bool :=
  if r <=? 255 then
    (r =? 9) || (r =? 10) || (r =? 11) || (r =? 12) || (r =? 13)
    || (r =? 32) || (r =? 133) || (r =? 160)
  else
    (r =? 5760) || ((8192 <=? r) && (r <=? 8202)) || (r =? 8232)
    || (r =? 8233) || (r =? 8239) || (r =? 8287) || (r =? 12288).

(** The loop of [strings.FieldsFunc] over the code points of the string.
    [skip] counts the bytes still to pass of the code point just read and
    [field] is the field being read, if any; a field ends at a white space
    code point or at the end of the string. *)
Fixpoint scan_fields (s : string) (skip : nat) (field : option string)
    : list string :=
  match s with
  | EmptyString =>
    match field with
    | Some f => [f]
    | None => []
    end
  | String c rest =>
    match skip with
    | S skip' =>
      scan_fields rest skip'
        (option_map (fun f => (f ++ String c "")%string) field)
    | O =>
      let '(r, width) := decodeRune (String c rest) in
      if IsSpace r then
        match field with
        | Some f => f :: scan_fields rest (width - 1) None
        | None => scan_fields rest (width - 1) None
        end
      else
        scan_fields rest (width - 1)
          (Some (default "" field ++ String c "")%string)
    end
  end.

(** [strings.Fields]: the fields of the string between runs of white
    space, as [unicode.IsSpace] defines it. *)
Definition Fields (s : string) : list string := scan_fields s 0 None.

Module SearchTerms.

(** [splitStringToTerms] of the source; the name outside this module is
    the field of [SearchEnv] that stands for it in [Search]. *)
Definition splitStringToTerms (searchString : string) : list string :=
  Fields (escapeString searchString).

End SearchTerms.

(** The first [n] bytes of the string are there and are not ASCII. *)
Fixpoint high_bytes (n : nat) (s : string) : Prop :=
  match n with
  | O => True
  | S n' =>
    match s with
    | String c s' => 128 <= byte c /\ high_bytes n' s'
    | EmptyString => False
    end
  end.

(** The white space characters of ASCII. *)
Definition ascii_space : list Ascii.ascii :=
  map Ascii.ascii_of_nat [9; 10; 11; 12; 13; 32]%nat.

(** A separator of terms: a character of the class or ASCII white space. *)
Definition separator (c : Ascii.ascii) : Prop :=
  is_special c = true \/ c ∈ ascii_space.

(** A plain character: ASCII, outside the class, not white space. *)
Definition plain (c : Ascii.ascii) : Prop :=
  byte c < 128 /\ is_special c = false /\ c ∉ ascii_space.

(** * Properties *)

(** Membership of a given state in a table written out, and its negation. *)
Ltac in_table :=
  repeat first [ apply list_elem_of_here | apply list_elem_of_further ].

Ltac not_in_table :=
  let H := fresh "H" in
  intros H;
  repeat (apply elem_of_cons in H as [H | H]; [ discriminate H | ]);
  by apply elem_of_nil in H.

Section Int64Facts.

Lemma wrap64_range z : in_range (wrap64 z).
Proof.
  unfold in_range, wrap64, min_int, max_int.
  pose proof (Z.mod_pos_bound (z + 2 ^ 63) (2 ^ 64) ltac:(lia)). lia.
Qed.

Lemma wrap64_id z : in_range z -> wrap64 z = z.
Proof.
  unfold in_range, wrap64, min_int, max_int. intros H.
  rewrite Z.mod_small; lia.
Qed.

Lemma wrap64_add_l a b : wrap64 (wrap64 a + b) = wrap64 (a + b).
Proof.
  unfold wrap64.
  replace ((a + 2 ^ 63) mod 2 ^ 64 - 2 ^ 63 + b + 2 ^ 63)
    with ((a + 2 ^ 63) mod 2 ^ 64 + b) by lia.
  rewrite Zplus_mod_idemp_l. f_equal. f_equal. lia.
Qed.

Lemma wrap64_add_r a b : wrap64 (a + wrap64 b) = wrap64 (a + b).
Proof. rewrite (Z.add_comm a), wrap64_add_l. f_equal. lia. Qed.

End Int64Facts.

Section MustIgnoreFacts.

Lemma eventStateWeight_policy state :
  state ∈ policy_states ->
  eventStateWeight !! state = Some (policy_weight state).
Proof.
  unfold policy_states. intros H.
  repeat (apply elem_of_cons in H as [-> | H]); try (vm_compute; reflexivity).
  by apply elem_of_nil in H.
Qed.

Lemma eventStateWeight_outside state :
  state ∉ policy_states -> eventStateWeight !! state = None.
Proof.
  unfold policy_states, eventStateWeight. intros H.
  apply not_elem_of_list_to_map_1. simpl.
  intros Hin. apply H.
  repeat (apply elem_of_cons in Hin as [-> | Hin]);
    [ in_table .. | by apply elem_of_nil in Hin ].
Qed.

Lemma policy_weight_range state :
  state ∈ policy_states -> 0 <= policy_weight state <= 10000.
Proof.
  unfold policy_states. intros H.
  repeat (apply elem_of_cons in H as [-> | H]);
    try (vm_compute; split; discriminate).
  by apply elem_of_nil in H.
Qed.

(** Scenario "ignore-warnings subscription": OK to WARN is dropped, WARN to
    ERROR is kept. *)
Example MustIgnore_ignore_warnings :
  MustIgnore (sample_subscription true false) (sample_event "OK" "WARN") = true
  /\ MustIgnore (sample_subscription true false) (sample_event "WARN" "ERROR")
     = false.
Proof. split; reflexivity. Qed.

End MustIgnoreFacts.

(** C1. For a transition between two states of the weight table, with
    delta = weight(State) - weight(OldState) under OK=0, WARN=1, ERROR=100,
    NODATA=10000, [MustIgnore] answers true exactly when delta < 0 and
    recoverings are ignored, or delta = -1 and recoverings or warnings are
    ignored, or delta = 1 and warnings are ignored; it answers false in
    every other case. *)
Theorem MustIgnore_policy (s : SubscriptionData.t) (e : NotificationEvent.t) :
  NotificationEvent.OldState e ∈ policy_states ->
  NotificationEvent.State e ∈ policy_states ->
  MustIgnore s e =
    ((policy_delta e <? 0) && SubscriptionData.IgnoreRecoverings s)
    || ((policy_delta e =? -1)
        && (SubscriptionData.IgnoreRecoverings s
            || SubscriptionData.IgnoreWarnings s))
    || ((policy_delta e =? 1) && SubscriptionData.IgnoreWarnings s).
Proof.
  intros Hold Hnew. unfold MustIgnore, policy_delta.
  rewrite (eventStateWeight_policy _ Hold), (eventStateWeight_policy _ Hnew).
  pose proof (policy_weight_range _ Hold) as Ho.
  pose proof (policy_weight_range _ Hnew) as Hn.
  cbv zeta. unfold Int64.sub. rewrite wrap64_id
    by (unfold in_range, min_int, max_int; lia).
  set (d := policy_weight _ - policy_weight _).
  destruct (SubscriptionData.IgnoreRecoverings s),
    (SubscriptionData.IgnoreWarnings s);
    destruct (Z.ltb_spec d 0), (Z.eqb_spec d (-1)), (Z.eqb_spec d 1);
    simpl; try reflexivity; lia.
Qed.

Lemma MustIgnore_policy_witness :
  MustIgnore (sample_subscription true false) (sample_event "OK" "WARN")
  = true.
Proof.
  rewrite MustIgnore_policy; [ reflexivity | | ];
    unfold policy_states; simpl; in_table.
Defined.

(** C10. When the old or the new state of the event is outside the weight
    table (OK, WARN, ERROR, NODATA), [MustIgnore] answers false whatever the
    two ignore flags of the subscription are. *)
Theorem MustIgnore_outside_table (s : SubscriptionData.t)
    (e : NotificationEvent.t) :
  NotificationEvent.OldState e ∉ policy_states
  \/ NotificationEvent.State e ∉ policy_states ->
  MustIgnore s e = false.
Proof.
  intros [H | H]; unfold MustIgnore.
  - by rewrite (eventStateWeight_outside _ H).
  - rewrite (eventStateWeight_outside _ H).
    by destruct (eventStateWeight !! _).
Qed.

Lemma MustIgnore_outside_table_witness :
  MustIgnore (sample_subscription true true) (sample_event "EXCEPTION" "OK")
  = false.
Proof.
  apply MustIgnore_outside_table. left. simpl.
  unfold policy_states. not_in_table.
Defined.

Section GetSubjectStateFacts.

Lemma collect_states_from_lookup (acc : gmap string bool)
    (events : NotificationEvents) state :
  foldl (fun states event => <[NotificationEvent.State event := true]> states)
        acc events !! state
  = if bool_decide (state ∈ NotificationEvent.State <$> events)
    then Some true else acc !! state.
Proof.
  revert acc. induction events as [| e events IH]; intros acc.
  - rewrite fmap_nil. done.
  - rewrite fmap_cons. simpl. rewrite IH.
    destruct (decide (state = NotificationEvent.State e)) as [-> | Hne].
    + rewrite lookup_insert_eq.
      rewrite (bool_decide_eq_true_2 (_ ∈ _ :: _)) by apply list_elem_of_here.
      by case_bool_decide.
    + rewrite lookup_insert_ne by done.
      apply (f_equal (fun b : bool => if b then Some true else acc !! state)).
      apply bool_decide_ext. rewrite elem_of_cons.
      split; [ by right | by intros [? | ?] ].
Qed.

Lemma collect_states_lookup (events : NotificationEvents) state :
  default false (collect_states events !! state)
  = bool_decide (state ∈ NotificationEvent.State <$> events).
Proof.
  unfold collect_states. rewrite collect_states_from_lookup.
  case_bool_decide; [ done | by rewrite lookup_empty ].
Qed.

Lemma position_app_l state order order' :
  state ∈ order -> position state (order ++ order') = position state order.
Proof.
  induction order as [| x order IH]; intros Hin; simpl.
  - by apply elem_of_nil in Hin.
  - case_decide; [ done | ]. f_equal. apply IH.
    apply elem_of_cons in Hin as [-> | Hin]; done.
Qed.

Lemma position_app_r state order :
  state ∉ order -> position state (order ++ [state]) = length order.
Proof.
  induction order as [| x order IH]; intros Hin; simpl.
  - by rewrite decide_True.
  - apply not_elem_of_cons in Hin as [Hne Hin].
    rewrite decide_False by done. f_equal. by apply IH.
Qed.

Lemma position_lt state order :
  state ∈ order -> (position state order < length order)%nat.
Proof.
  induction order as [| x order IH]; intros Hin; simpl.
  - by apply elem_of_nil in Hin.
  - case_decide; [ lia | ].
    apply elem_of_cons in Hin as [-> | Hin]; [ done | ].
    specialize (IH Hin). lia.
Qed.

(** The second loop returns the initial result when no state of the table
    is set, and otherwise the set state that stands last in the table. *)
Lemma last_present_spec states order init :
  NoDup order ->
  (last_present states order init = init
   /\ forall x, x ∈ order -> default false (states !! x) = false)
  \/ (last_present states order init ∈ order
      /\ default false (states !! last_present states order init) = true
      /\ forall x, x ∈ order -> default false (states !! x) = true ->
           (position x order
            <= position (last_present states order init) order)%nat).
Proof.
  unfold last_present.
  induction order as [| y order IH] using rev_ind; intros Hnd.
  - left. split; [ done | ]. intros x Hx. by apply elem_of_nil in Hx.
  - apply NoDup_app in Hnd as (Hnd & Hy & _).
    assert (y ∉ order) as Hyn.
    { intros Hin. apply (Hy y Hin). apply list_elem_of_here. }
    rewrite foldl_app. simpl.
    destruct (default false (states !! y)) eqn:Hsy.
    + right. split; [ apply elem_of_app; right; apply list_elem_of_here | ].
      split; [ done | ]. intros x Hx _.
      rewrite (position_app_r y order Hyn).
      apply elem_of_app in Hx as [Hx | Hx].
      * rewrite position_app_l by done.
        pose proof (position_lt x order Hx). lia.
      * apply list_elem_of_singleton in Hx as ->.
        by rewrite position_app_r.
    + destruct (IH Hnd) as [[Heq Hnone] | (Hin & Hset & Hmax)].
      * left. split; [ done | ]. intros x Hx.
        apply elem_of_app in Hx as [Hx | Hx]; [ by apply Hnone | ].
        by apply list_elem_of_singleton in Hx as ->.
      * right. split; [ apply elem_of_app; by left | ].
        split; [ done | ]. intros x Hx Hsx.
        apply elem_of_app in Hx as [Hx | Hx].
        -- rewrite !position_app_l by done. by apply Hmax.
        -- apply list_elem_of_singleton in Hx as ->. congruence.
Qed.

Lemma eventStates_NoDup : NoDup eventStates.
Proof. unfold eventStates. apply (bool_decide_unpack _). vm_compute. exact I. Qed.

End GetSubjectStateFacts.

(** C6. For a non-empty list of events whose states all belong to the
    table OK, WARN, ERROR, NODATA, EXCEPTION, TEST, [GetSubjectState]
    returns a state carried by some event of the list, and no event of the
    list carries a state that stands later in the table. *)
Theorem GetSubjectState_last_in_order (events : NotificationEvents) :
  events <> [] ->
  (forall e, e ∈ events -> NotificationEvent.State e ∈ eventStates) ->
  (exists e, e ∈ events
             /\ NotificationEvent.State e = GetSubjectState events)
  /\ forall e, e ∈ events ->
       (position (NotificationEvent.State e) eventStates
        <= position (GetSubjectState events) eventStates)%nat.
Proof.
  intros Hne Hall. unfold GetSubjectState.
  destruct (last_present_spec (collect_states events) eventStates ""
              eventStates_NoDup) as [[_ Hnone] | (Hin & Hset & Hmax)].
  - destruct events as [| e events]; [ done | ]. exfalso.
    specialize (Hnone (NotificationEvent.State e)
                      (Hall e (list_elem_of_here _ _))).
    rewrite collect_states_lookup in Hnone.
    apply bool_decide_eq_false in Hnone. apply Hnone.
    simpl. apply list_elem_of_here.
  - split.
    + rewrite collect_states_lookup in Hset.
      apply bool_decide_eq_true in Hset.
      apply list_elem_of_fmap in Hset as (e & Heq & He). eauto.
    + intros e He. apply Hmax; [ by apply Hall | ].
      rewrite collect_states_lookup. apply bool_decide_eq_true.
      apply list_elem_of_fmap. eauto.
Qed.

Lemma GetSubjectState_last_in_order_witness :
  (exists e, e ∈ sample_events
             /\ NotificationEvent.State e = GetSubjectState sample_events)
  /\ forall e, e ∈ sample_events ->
       (position (NotificationEvent.State e) eventStates
        <= position (GetSubjectState sample_events) eventStates)%nat.
Proof.
  apply GetSubjectState_last_in_order; [ discriminate | ].
  intros e He. unfold sample_events, eventStates in *.
  repeat (apply elem_of_cons in He as [-> | He]); [ in_table .. | ].
  by apply elem_of_nil in He.
Defined.

Section UpdateScoreFacts.

(** The table [scores] holds exactly the weights of the specification. *)
Lemma score_of_severity state : score_of state = severity_weight state.
Proof.
  unfold score_of, severity_weight.
  repeat (case_decide; [ subst; vm_compute; reflexivity | ]).
  unfold scores. rewrite (not_elem_of_list_to_map_1 _ state); [ done | ].
  simpl. intros Hin.
  repeat (apply elem_of_cons in Hin as [-> | Hin]); try done.
  by apply elem_of_nil in Hin.
Qed.

Lemma severity_weight_range state : 0 <= severity_weight state <= 100000.
Proof. unfold severity_weight. repeat case_decide; lia. Qed.

Lemma severity_sum_range metrics :
  0 <= severity_sum metrics <= 100000 * Z.of_nat (length metrics).
Proof.
  induction metrics as [| kv metrics IH]; simpl; [ lia | ].
  pose proof (severity_weight_range (MetricState.State kv.2)). lia.
Qed.

Lemma severity_sum_perm metrics metrics' :
  metrics ≡ₚ metrics' -> severity_sum metrics = severity_sum metrics'.
Proof. induction 1; simpl; lia. Qed.

Lemma add_scores_wrap acc metrics :
  in_range acc ->
  add_scores acc metrics = wrap64 (acc + severity_sum metrics).
Proof.
  revert acc. induction metrics as [| kv metrics IH]; intros acc Hacc; simpl.
  - rewrite Z.add_0_r. symmetry. by apply wrap64_id.
  - unfold add_scores in IH. rewrite IH by apply wrap64_range.
    unfold Int64.add. rewrite wrap64_add_l, score_of_severity.
    f_equal. lia.
Qed.

(** The score does not depend on the order in which the metrics are
    enumerated. *)
Lemma add_scores_order acc metrics metrics' :
  in_range acc -> metrics ≡ₚ metrics' ->
  add_scores acc metrics = add_scores acc metrics'.
Proof.
  intros Hacc Hperm. rewrite !add_scores_wrap by done.
  by rewrite (severity_sum_perm _ _ Hperm).
Qed.

(** Scenario "NODATA via TTL": a check in state NODATA with one OK metric
    scores 1000. *)
Example UpdateScore_nodata :
  (UpdateScore
     (CheckData.mk (Some {["m2" := sample_metric "OK"]}) 0 "NODATA" 0 0 0 0
                   false "" "")).2 = 1000.
Proof. vm_compute. reflexivity. Qed.

End UpdateScoreFacts.

(** C2. After [UpdateScore] the stored score is the returned score, and it
    is weight(State) plus the sum of weight(metric.State) over the metrics,
    under OK=0, DEL=0, WARN=1, ERROR=100, NODATA=1000, EXCEPTION=100000:
    as a 64-bit integer in general, and as the exact integer when the
    check holds fewer than 2^46 metrics. *)
Theorem UpdateScore_severity_total (c : CheckData.t) :
  (UpdateScore c).2 = CheckData.Score (UpdateScore c).1
  /\ CheckData.Score (UpdateScore c).1 = wrap64 (severity_total c)
  /\ (Z.of_nat (size (table (CheckData.Metrics c))) < 2 ^ 46 ->
      CheckData.Score (UpdateScore c).1 = severity_total c).
Proof.
  unfold UpdateScore, severity_total.
  cbn [fst snd CheckData.set_Score CheckData.Score].
  pose proof (severity_weight_range (CheckData.State c)) as Hw.
  assert (add_scores (score_of (CheckData.State c))
            (map_to_list (table (CheckData.Metrics c)))
          = wrap64 (severity_weight (CheckData.State c)
                    + severity_sum (map_to_list (table (CheckData.Metrics c)))))
    as Heq.
  { rewrite add_scores_wrap, score_of_severity; [ done | ].
    rewrite score_of_severity. unfold in_range, min_int, max_int. lia. }
  split; [ done | ]. split; [ done | ].
  intros Hsize. rewrite Heq. apply wrap64_id.
  pose proof (severity_sum_range (map_to_list (table (CheckData.Metrics c)))) as Hs.
  rewrite length_map_to_list in Hs.
  unfold in_range, min_int, max_int. lia.
Qed.

Lemma UpdateScore_severity_total_witness :
  CheckData.Score (UpdateScore sample_check).1 = 101101.
Proof.
  destruct (UpdateScore_severity_total sample_check) as (_ & _ & ->).
  - vm_compute. reflexivity.
  - vm_compute. reflexivity.
Defined.

Section GetOrCreateMetricStateFacts.

Lemma createEmptyMetricState_muted unixNow from :
  createEmptyMetricState unixNow from false
  = MetricState.mk unixNow "OK" false "" unixNow None 0.
Proof. reflexivity. Qed.

Lemma createEmptyMetricState_nodata unixNow from :
  createEmptyMetricState unixNow from true
  = MetricState.mk 0 "NODATA" false "" from None 0.
Proof. reflexivity. Qed.

End GetOrCreateMetricStateFacts.

(** C7, as stated, fails on a check whose metrics map is nil: the metric
    is absent, and the assignment to the nil map panics instead of
    inserting a state. *)
Lemma GetOrCreateMetricState_nil_map_panics :
  map_lookup (CheckData.Metrics unallocated_check) "m" = None
  /\ ~ exists c' st,
         GetOrCreateMetricState 1500000000 unallocated_check "m" 5 false
         = Some (c', st).
Proof.
  split; [ reflexivity | ]. intros (c' & st & H). discriminate H.
Qed.

(** C7, amended. For a check whose metrics map is allocated: when the
    metric is absent the call inserts and returns a new state, which is
    NODATA with Timestamp = from and EventTimestamp = 0 when muteNewMetric
    is false, and OK with Timestamp and EventTimestamp both the current
    wall-clock time when muteNewMetric is true; when the metric is present
    the check is left unchanged and the existing state is returned. *)
Theorem GetOrCreateMetricState_allocated (unixNow : Z) (c : CheckData.t)
    (metrics : gmap string MetricState.t) (metric : string) (from : Z)
    (muteNewMetric : bool) :
  CheckData.Metrics c = Some metrics ->
  match metrics !! metric with
  | None =>
    let fresh :=
      if muteNewMetric
      then MetricState.mk unixNow "OK" false "" unixNow None 0
      else MetricState.mk 0 "NODATA" false "" from None 0 in
    GetOrCreateMetricState unixNow c metric from muteNewMetric
    = Some (CheckData.set_Metrics (Some (<[metric := fresh]> metrics)) c,
            fresh)
  | Some existing =>
    GetOrCreateMetricState unixNow c metric from muteNewMetric
    = Some (c, existing)
  end.
Proof.
  intros Hm. unfold GetOrCreateMetricState, map_lookup, map_index, map_lookup.
  rewrite Hm. cbn [table default from_option id].
  destruct (metrics !! metric) as [existing |] eqn:Hlook.
  - rewrite bool_decide_eq_true_2 by eauto. cbn.
    rewrite Hm. cbn. by rewrite Hlook.
  - rewrite bool_decide_eq_false_2 by (intros [? ?]; discriminate). cbn.
    rewrite lookup_insert_eq. cbn.
    destruct muteNewMetric; reflexivity.
Qed.

Lemma GetOrCreateMetricState_allocated_witness :
  GetOrCreateMetricState 1500000000 sample_check "d" 5 true
  = Some (CheckData.set_Metrics
            (Some (<["d" := MetricState.mk 1500000000 "OK" false ""
                              1500000000 None 0]>
                     (table (CheckData.Metrics sample_check))))
            sample_check,
          MetricState.mk 1500000000 "OK" false "" 1500000000 None 0).
Proof.
  exact (GetOrCreateMetricState_allocated 1500000000 sample_check
           (table (CheckData.Metrics sample_check)) "d" 5 true eq_refl).
Defined.

Section IsScheduleAllowsFacts.

Lemma local_seconds_split schedule ts :
  0 <= local_seconds schedule ts ->
  exists q m,
    local_seconds schedule ts = 86400 * q + 60 * m
    /\ 0 <= q /\ 0 <= m < 1440
    /\ minute_of_day schedule ts = m
    /\ local_seconds schedule ts `div` 86400 = q
    /\ local_seconds schedule ts `mod` 86400 = 60 * m.
Proof.
  intros Hpos. unfold minute_of_day.
  set (l := local_seconds schedule ts) in *.
  assert (l `mod` 60 = 0) as Hm60.
  { unfold l, local_seconds.
    pose proof (Z.div_mod ts 60 ltac:(lia)) as Hts.
    replace (ts - ts `mod` 60 - ScheduleData.TimezoneOffset schedule * 60)
      with ((ts `div` 60 - ScheduleData.TimezoneOffset schedule) * 60) by lia.
    apply Z.mod_mul. lia. }
  pose proof (Z.div_mod l 60 ltac:(lia)) as Hk.
  set (k := l `div` 60) in *.
  assert (l `mod` 86400 = 60 * (k `mod` 1440)) as Hr.
  { replace l with (60 * k) by lia.
    change 86400 with (60 * 1440). apply Z.mul_mod_distr_l; lia. }
  pose proof (Z.mod_pos_bound k 1440 ltac:(lia)) as Hm.
  pose proof (Z.div_mod l 86400 ltac:(lia)) as Hl.
  assert (0 <= l `div` 86400) by (apply Z.div_pos; lia).
  exists (l `div` 86400), (k `mod` 1440).
  rewrite Hr, (Z.mul_comm 60), Z.div_mul by lia.
  repeat split; lia.
Qed.

Lemma wrap64_mod z : wrap64 z `mod` 2 ^ 64 = z `mod` 2 ^ 64.
Proof.
  unfold wrap64.
  rewrite <- (Z.mod_add ((z + 2 ^ 63) `mod` 2 ^ 64 - 2 ^ 63) 1 (2 ^ 64))
    by lia.
  replace ((z + 2 ^ 63) `mod` 2 ^ 64 - 2 ^ 63 + 1 * 2 ^ 64)
    with ((z + 2 ^ 63) `mod` 2 ^ 64 + 2 ^ 63) by lia.
  rewrite Zplus_mod_idemp_l.
  replace (z + 2 ^ 63 + 2 ^ 63) with (z + 1 * 2 ^ 64) by lia.
  apply Z.mod_add. lia.
Qed.

(** Up to 2^62 seconds from the epoch, [time.Unix] stores the seconds
    counted from year 1 without overflow. *)
Lemma Unix_seconds sec :
  0 <= sec <= 2 ^ 62 ->
  Time.Unix sec 0 = Time.mk (sec + Time.unixToInternal) 0.
Proof.
  intros Hsec. unfold Time.Unix. cbn [Z.ltb Z.leb Z.compare orb].
  unfold Int64.add, Time.unixToInternal.
  by rewrite wrap64_id by (unfold in_range, min_int, max_int; lia).
Qed.

(** Away from the ends of the 64-bit range, [Add] of whole seconds adds
    them to the seconds of the instant. *)
Lemma Add_seconds e k :
  0 <= e <= 2 ^ 62 + 2 ^ 40 ->
  - 2 ^ 40 <= k <= 2 ^ 40 ->
  Time.Add (Time.mk e 0) (k * Time.Second) = Time.mk (e + k) 0.
Proof.
  intros He Hk. unfold Time.Add, Time.addSec, Time.Second.
  cbn [Time.ext Time.nsec].
  rewrite Z.quot_mul, Z.rem_mul by lia.
  change (0 + 0) with 0. change (1000000000 <=? 0) with false.
  change (0 <? 0) with false. cbv iota beta.
  unfold Int64.add.
  rewrite wrap64_id by (unfold in_range, min_int, max_int; lia).
  destruct (Z.ltb_spec e (e + k)); destruct (Z.ltb_spec 0 k);
    cbn [Bool.eqb]; first [ reflexivity | lia | f_equal; lia ].
Qed.

Lemma minutes_duration m :
  - 2 ^ 20 <= m <= 2 ^ 20 ->
  Int64.mul m Time.Minute = m * 60 * Time.Second.
Proof.
  intros Hm. unfold Int64.mul, Time.Minute, Time.Second.
  rewrite wrap64_id by (unfold in_range, min_int, max_int; lia). lia.
Qed.

(** The day of the week of an instant up to 2^62 seconds from the epoch,
    which was a Thursday. *)
Lemma Weekday_seconds sec :
  0 <= sec <= 2 ^ 62 ->
  Time.Weekday (Time.Unix sec 0) = (sec `div` 86400 + 4) `mod` 7.
Proof.
  intros Hsec. rewrite Unix_seconds by done.
  unfold Time.Weekday, Time.abs, Time.unixSec, Int64.add.
  cbn [Time.ext]. rewrite wrap64_add_l, wrap64_mod.
  replace (sec + Time.unixToInternal + Time.internalToUnix
           + (Time.unixToInternal + Time.internalToAbsolute))
    with (sec + 9223372028715321600)
    by (unfold Time.internalToUnix, Time.unixToInternal,
          Time.internalToAbsolute; lia).
  unfold Time.secondsPerWeek, Time.secondsPerDay.
  pose proof (Z.div_mod sec 86400 ltac:(lia)) as Hday.
  pose proof (Z.mod_pos_bound sec 86400 ltac:(lia)) as Hrem.
  set (d := sec `div` 86400) in *. set (r := sec `mod` 86400) in *.
  pose proof (Z.div_mod (d + 4) 7 ltac:(lia)) as Hweek.
  pose proof (Z.mod_pos_bound (d + 4) 7 ltac:(lia)) as Hw.
  set (c := (d + 4) `div` 7) in *. set (w := (d + 4) `mod` 7) in *.
  rewrite (Z.mod_small (sec + _) (2 ^ 64)) by lia.
  rewrite (Z.mod_small (sec + _ + _) (2 ^ 64)) by lia.
  replace (sec + 9223372028715321600 + 1 * 86400)
    with (86400 * w + r + (c + 15250284439013) * (7 * 86400)) by lia.
  rewrite Z.mod_add, Z.mod_small by lia.
  rewrite Z.quot_div_nonneg by lia.
  symmetry. apply (Z.div_unique _ _ w r); lia.
Qed.

(** The day of the week is a number from 0 to 6 for every instant. *)
Lemma Weekday_range x : 0 <= Time.Weekday x < 7.
Proof.
  unfold Time.Weekday, Time.secondsPerWeek, Time.secondsPerDay.
  set (a := (Time.abs x + 1 * 86400) `mod` 2 ^ 64).
  pose proof (Z.mod_pos_bound a (7 * 86400) ltac:(lia)) as Hsec.
  rewrite Z.quot_div_nonneg by lia. split.
  - apply Z.div_pos; lia.
  - apply Z.div_lt_upper_bound; lia.
Qed.

(** The index into the days of the schedule stays below 7. *)
Lemma weekday_index date :
  (Z.to_nat (Int64.rem (Int64.add (Time.Weekday date) 6) 7) < 7)%nat.
Proof.
  pose proof (Weekday_range date) as Hw.
  unfold Int64.add, Int64.rem.
  rewrite wrap64_id by (unfold in_range, min_int, max_int; lia).
  rewrite Z.rem_mod_nonneg by lia.
  pose proof (Z.mod_pos_bound (Time.Weekday date + 6) 7 ltac:(lia)).
  lia.
Qed.

Lemma timestamp_exact schedule ts :
  civil schedule ts ->
  Int64.sub (Int64.sub ts (Int64.rem ts 60))
            (Int64.mul (ScheduleData.TimezoneOffset schedule) 60)
  = local_seconds schedule ts.
Proof.
  unfold civil, local_seconds, Int64.sub, Int64.mul, Int64.rem, max_int.
  intros (Hts & Htz & Hl).
  rewrite Z.rem_mod_nonneg by lia.
  pose proof (Z.mod_pos_bound ts 60 ltac:(lia)).
  rewrite (wrap64_id (ts - _)) by (unfold in_range, min_int, max_int; lia).
  rewrite (wrap64_id (_ * 60)) by (unfold in_range, min_int, max_int; lia).
  apply wrap64_id. unfold in_range, min_int, max_int. lia.
Qed.

(** On civil timestamps and offsets within the day, the source tests the
    day of the local week and then the window on the minute of the day. *)
Lemma IsScheduleAllows_civil schedule ts :
  civil schedule ts ->
  0 <= ScheduleData.StartOffset schedule < 1440 ->
  0 <= ScheduleData.EndOffset schedule < 1440 ->
  IsScheduleAllows (Some schedule) ts
  = day ← ScheduleData.Days schedule !! day_of_week schedule ts;
    Some (ScheduleDataDay.Enabled day
          && in_window (ScheduleData.StartOffset schedule)
                       (ScheduleData.EndOffset schedule)
                       (minute_of_day schedule ts)).
Proof.
  intros Hcivil Hstart Hend. unfold IsScheduleAllows.
  rewrite (timestamp_exact _ _ Hcivil).
  destruct Hcivil as (Hts & Htz & Hl).
  destruct (local_seconds_split schedule ts ltac:(lia))
    as (q & m & Hsplit & Hq & Hm & Hmin & Hdiv & Hmod).
  unfold day_of_week. rewrite Hmin, Hdiv.
  set (l := local_seconds schedule ts) in *.
  rewrite Weekday_seconds, Hdiv by lia.
  assert (Int64.rem (Int64.add ((q + 4) `mod` 7) 6) 7 = (q + 3) `mod` 7) as ->.
  { pose proof (Z.mod_pos_bound (q + 4) 7 ltac:(lia)).
    unfold Int64.rem, Int64.add.
    rewrite wrap64_id by (unfold in_range, min_int, max_int; lia).
    rewrite Z.rem_mod_nonneg by lia.
    rewrite Zplus_mod_idemp_l.
    replace (q + 4 + 6) with (q + 3 + 1 * 7) by lia. apply Z.mod_add. lia. }
  destruct (ScheduleData.Days schedule !! Z.to_nat ((q + 3) `mod` 7))
    as [day |]; [ | reflexivity ].
  cbn [mbind option_bind]. destruct (ScheduleDataDay.Enabled day); [ | reflexivity ].
  cbn [negb andb].
  assert (Int64.sub l (Int64.rem l 86400) = 86400 * q) as Hday.
  { unfold Int64.sub, Int64.rem. rewrite Z.rem_mod_nonneg by lia.
    rewrite Hmod, wrap64_id by (unfold in_range, min_int, max_int in *; lia).
    lia. }
  change (24 * 3600) with 86400. rewrite Hday.
  rewrite !Unix_seconds by lia.
  assert (Int64.mul (- Time.Hour) 24 = -86400 * Time.Second) as ->
    by reflexivity.
  rewrite (minutes_duration (ScheduleData.StartOffset schedule)) by lia.
  rewrite (Add_seconds _ (ScheduleData.StartOffset schedule * 60))
    by (unfold Time.unixToInternal; lia).
  unfold in_window.
  destruct (Z.ltb_spec (ScheduleData.EndOffset schedule)
                       (ScheduleData.StartOffset schedule)) as [Hwrap | Hplain].
  - unfold Int64.add.
    rewrite (wrap64_id (_ + 24 * 60))
      by (unfold in_range, min_int, max_int; lia).
    rewrite minutes_duration by lia.
    rewrite !Add_seconds by (unfold Time.unixToInternal; lia).
    rewrite (proj2 (Z.ltb_ge _ _)) by lia.
    unfold Time.Before, Time.After, Time.unixToInternal.
    cbn [Time.ext Time.nsec]. rewrite Z.ltb_irrefl, !andb_false_r, !orb_false_r.
    f_equal.
    repeat match goal with
           | |- context [ ?a <? ?b ] => destruct (Z.ltb_spec a b)
           end; simpl; try reflexivity; lia.
  - rewrite minutes_duration by lia.
    rewrite !Add_seconds by (unfold Time.unixToInternal; lia).
    rewrite (proj2 (Z.ltb_lt _ _)) by lia.
    unfold Time.Before, Time.After, Time.Equal, Time.unixToInternal.
    cbn [Time.ext Time.nsec].
    rewrite Z.ltb_irrefl, Z.eqb_refl, !andb_false_r, !andb_true_r,
      !orb_false_r.
    repeat match goal with
           | |- context [ ?a <? ?b ] => destruct (Z.ltb_spec a b)
           | |- context [ ?a =? ?b ] => destruct (Z.eqb_spec a b)
           | |- context [ ?a <=? ?b ] => destruct (Z.leb_spec a b)
           end; simpl; try reflexivity; lia.
Qed.

(** Scenario "schedule wrap-around": from 22:00 to 06:00, 23:00 and 05:00
    are allowed and 10:00 is not. *)
Example IsScheduleAllows_wrap_around :
  IsScheduleAllows (Some night_schedule) (23 * 3600) = Some true
  /\ IsScheduleAllows (Some night_schedule) (10 * 3600) = Some false
  /\ IsScheduleAllows (Some night_schedule) (5 * 3600) = Some true.
Proof. vm_compute. repeat split; reflexivity. Qed.

(** A schedule without its seven days panics on the index of the day. *)
Example IsScheduleAllows_missing_days :
  IsScheduleAllows (Some (ScheduleData.mk [] 0 0 1439)) 1500000000 = None.
Proof. vm_compute. reflexivity. Qed.

End IsScheduleAllowsFacts.

(** C5. [IsScheduleAllows] is total: the nil schedule allows every
    timestamp, and a schedule that holds the seven days of the week answers
    a boolean for every timestamp, the index into its days staying within
    bounds. *)
Theorem IsScheduleAllows_total :
  (forall ts, IsScheduleAllows None ts = Some true)
  /\ (forall schedule ts,
        (7 <= length (ScheduleData.Days schedule))%nat ->
        exists b, IsScheduleAllows (Some schedule) ts = Some b).
Proof.
  split; [ reflexivity | ]. intros schedule ts Hdays. unfold IsScheduleAllows.
  set (date := Time.Unix _ 0).
  pose proof (weekday_index date) as Hidx.
  set (idx := Z.to_nat _) in *.
  assert (is_Some (ScheduleData.Days schedule !! idx)) as [day ->]
    by (apply lookup_lt_is_Some_2; lia).
  cbn [mbind option_bind].
  repeat match goal with
         | |- context [ if ?c then _ else _ ] => destruct c
         end; eauto.
Qed.

Lemma IsScheduleAllows_total_witness :
  exists b,
    IsScheduleAllows (Some (ScheduleData.mk (every_day true) 180 540 1080))
                     1500000000 = Some b.
Proof.
  apply (proj2 IsScheduleAllows_total). simpl. lia.
Defined.

(** C3: the source evaluated at the start of a window that wraps past
    midnight.  The schedule runs from 22:00 to 06:00 with every day
    enabled; at 22:00 sharp, the minute of the day equal to startOffset,
    the answer is false. *)
Lemma IsScheduleAllows_wrapping_start_denied :
  minute_of_day night_schedule 79200 = ScheduleData.StartOffset night_schedule
  /\ day_enabled night_schedule 79200 = true
  /\ IsScheduleAllows (Some night_schedule) 79200 = Some false.
Proof. vm_compute. repeat split; reflexivity. Qed.

(** What the source does on a window that wraps past midnight: on an
    enabled day it allows the minutes after startOffset and the minutes
    before endOffset, both bounds excluded. *)
Lemma IsScheduleAllows_wrapping_window schedule ts :
  civil schedule ts ->
  0 <= ScheduleData.EndOffset schedule < ScheduleData.StartOffset schedule ->
  ScheduleData.StartOffset schedule < 1440 ->
  length (ScheduleData.Days schedule) = 7%nat ->
  IsScheduleAllows (Some schedule) ts
  = Some (day_enabled schedule ts
          && ((minute_of_day schedule ts <? ScheduleData.EndOffset schedule)
              || (ScheduleData.StartOffset schedule
                  <? minute_of_day schedule ts))).
Proof.
  intros Hcivil Hend Hstart Hdays.
  rewrite IsScheduleAllows_civil by (done || lia).
  unfold day_enabled, in_window.
  rewrite (proj2 (Z.ltb_lt _ _)) by lia.
  destruct (lookup_lt_is_Some_2 (ScheduleData.Days schedule)
              (day_of_week schedule ts)) as [day ->]; [ | done ].
  unfold day_of_week.
  pose proof (Z.mod_pos_bound (local_seconds schedule ts `div` 86400 + 3) 7
                ltac:(lia)).
  lia.
Qed.

(** Away from the minute startOffset itself, a window that wraps past
    midnight is the window [startOffset, 1440) with [0, endOffset). *)
Lemma IsScheduleAllows_wrapping_off_start schedule ts :
  civil schedule ts ->
  0 <= ScheduleData.EndOffset schedule < ScheduleData.StartOffset schedule ->
  ScheduleData.StartOffset schedule < 1440 ->
  length (ScheduleData.Days schedule) = 7%nat ->
  minute_of_day schedule ts <> ScheduleData.StartOffset schedule ->
  IsScheduleAllows (Some schedule) ts
  = Some (day_enabled schedule ts
          && (((ScheduleData.StartOffset schedule <=? minute_of_day schedule ts)
               && (minute_of_day schedule ts <? 1440))
              || ((0 <=? minute_of_day schedule ts)
                  && (minute_of_day schedule ts
                      <? ScheduleData.EndOffset schedule)))).
Proof.
  intros Hcivil Hend Hstart Hdays Hminute.
  rewrite IsScheduleAllows_wrapping_window by done.
  destruct Hcivil as (_ & _ & Hlocal).
  destruct (local_seconds_split schedule ts ltac:(lia))
    as (q & m & _ & _ & Hm & Hmin & _).
  rewrite Hmin in *. do 2 f_equal.
  repeat match goal with
         | |- context [ ?a <? ?b ] => destruct (Z.ltb_spec a b)
         | |- context [ ?a <=? ?b ] => destruct (Z.leb_spec a b)
         end; simpl; try reflexivity; lia.
Qed.

(** The schedule of the whole day, from minute 0 to minute 1439, allows
    every minute of an enabled day. *)
Lemma IsScheduleAllows_whole_day schedule ts :
  civil schedule ts ->
  ScheduleData.StartOffset schedule = 0 ->
  ScheduleData.EndOffset schedule = 1439 ->
  length (ScheduleData.Days schedule) = 7%nat ->
  IsScheduleAllows (Some schedule) ts = Some (day_enabled schedule ts).
Proof.
  intros Hcivil Hstart Hend Hdays.
  rewrite IsScheduleAllows_civil by (done || lia).
  unfold day_enabled, in_window. rewrite Hstart, Hend.
  destruct Hcivil as (_ & _ & Hlocal).
  destruct (local_seconds_split schedule ts ltac:(lia))
    as (q & m & _ & _ & Hm & Hmin & _).
  rewrite Hmin.
  destruct (ScheduleData.Days schedule !! day_of_week schedule ts)
    as [day |] eqn:Hday; cbn [mbind option_bind].
  - rewrite (proj2 (Z.leb_le 0 m)), (proj2 (Z.leb_le m 1439)) by lia.
    cbn. by rewrite andb_true_r.
  - apply lookup_ge_None in Hday. unfold day_of_week in Hday.
    pose proof (Z.mod_pos_bound (local_seconds schedule ts `div` 86400 + 3) 7
                  ltac:(lia)).
    lia.
Qed.

(** C4, as stated, fails: with startOffset = endOffset = 600 and every day
    enabled, the timestamp 10:00 is allowed. *)
Lemma IsScheduleAllows_equal_offsets_allows :
  ScheduleData.EndOffset minute_schedule
  = ScheduleData.StartOffset minute_schedule
  /\ length (ScheduleData.Days minute_schedule) = 7%nat
  /\ IsScheduleAllows (Some minute_schedule) 36000 = Some true.
Proof. vm_compute. repeat split; reflexivity. Qed.

(** C4, amended. For a schedule with endOffset = startOffset within the
    day and seven day entries, and a civil timestamp - the timestamp and
    the local time between 0 and 2^62 seconds, the timezone offset between
    -2^32 and 2^32 minutes - [IsScheduleAllows] answers true exactly when
    the local day is enabled and the minute of the local day is
    startOffset: the window is that single minute. *)
Theorem IsScheduleAllows_equal_offsets schedule ts :
  ScheduleData.EndOffset schedule = ScheduleData.StartOffset schedule ->
  length (ScheduleData.Days schedule) = 7%nat ->
  0 <= ScheduleData.StartOffset schedule < 1440 ->
  civil schedule ts ->
  IsScheduleAllows (Some schedule) ts
  = Some (day_enabled schedule ts
          && (minute_of_day schedule ts =? ScheduleData.StartOffset schedule)).
Proof.
  intros Heq Hdays Hstart Hcivil.
  rewrite IsScheduleAllows_civil by (done || lia).
  unfold day_enabled, in_window. rewrite Heq, Z.ltb_irrefl.
  destruct (lookup_lt_is_Some_2 (ScheduleData.Days schedule)
              (day_of_week schedule ts)) as [day ->].
  - unfold day_of_week.
    pose proof (Z.mod_pos_bound (local_seconds schedule ts `div` 86400 + 3) 7
                  ltac:(lia)).
    lia.
  - cbn [mbind option_bind]. do 2 f_equal.
    destruct (Z.eqb_spec (minute_of_day schedule ts)
                         (ScheduleData.StartOffset schedule)) as [-> | Hne].
    + by rewrite Z.leb_refl.
    + destruct (Z.leb_spec (ScheduleData.StartOffset schedule)
                           (minute_of_day schedule ts));
        destruct (Z.leb_spec (minute_of_day schedule ts)
                             (ScheduleData.StartOffset schedule));
        simpl; try reflexivity; lia.
Qed.

Lemma IsScheduleAllows_equal_offsets_witness :
  IsScheduleAllows (Some minute_schedule) 36060 = Some false.
Proof.
  rewrite IsScheduleAllows_equal_offsets;
    [ vm_compute; reflexivity | reflexivity | reflexivity
    | unfold minute_schedule; cbn [ScheduleData.StartOffset]; lia
    | vm_compute; repeat split; discriminate ].
Defined.

(** Why the timestamps of C4 stop at 2^62: past 2^63 - 1 - 62135596800
    seconds the seconds of [time.Unix], counted from year 1, wrap around,
    and [Add] stays at the largest value.  There the minute startOffset of
    an enabled day is refused. *)
Example IsScheduleAllows_past_time_range :
  minute_of_day (ScheduleData.mk (every_day true) 0 1000 1000)
                9223371974719183200 = 1000
  /\ day_enabled (ScheduleData.mk (every_day true) 0 1000 1000)
                 9223371974719183200 = true
  /\ IsScheduleAllows (Some (ScheduleData.mk (every_day true) 0 1000 1000))
                      9223371974719183200 = Some false.
Proof. vm_compute. repeat split; reflexivity. Qed.

Section Float64Facts.

Lemma digits2_pos_shift p k :
  digits2_pos (Pos.iter xO p k) = (digits2_pos p + k)%positive.
Proof.
  induction k as [| k IH] using Pos.peano_ind.
  - simpl. lia.
  - rewrite Pos.iter_succ. simpl. rewrite IH. lia.
Qed.

Lemma pos_shift_value p k : Z.pos (Pos.iter xO p k) = Z.pos p * 2 ^ Z.pos k.
Proof.
  induction k as [| k IH] using Pos.peano_ind.
  - simpl. lia.
  - rewrite Pos.iter_succ.
    change (Z.pos (Pos.iter xO p k)~0) with (2 * Z.pos (Pos.iter xO p k)).
    rewrite IH, Pos2Z.inj_succ, Z.pow_succ_r; lia.
Qed.

(** 2^(d-1) <= p < 2^d for d the number of binary digits of p. *)
Lemma digits2_pos_bounds p :
  2 ^ (Z.pos (digits2_pos p) - 1) <= Z.pos p < 2 ^ Z.pos (digits2_pos p).
Proof.
  induction p as [p IH | p IH |]; simpl digits2_pos.
  - rewrite Pos2Z.inj_succ. change (Z.pos p~1) with (2 * Z.pos p + 1).
    replace (Z.succ (Z.pos (digits2_pos p)) - 1)
      with (Z.succ (Z.pos (digits2_pos p) - 1)) by lia.
    rewrite !Z.pow_succ_r by lia. lia.
  - rewrite Pos2Z.inj_succ. change (Z.pos p~0) with (2 * Z.pos p).
    replace (Z.succ (Z.pos (digits2_pos p)) - 1)
      with (Z.succ (Z.pos (digits2_pos p) - 1)) by lia.
    rewrite !Z.pow_succ_r by lia. lia.
  - simpl. lia.
Qed.

Lemma digits2_pos_le p n :
  0 <= n -> Z.pos p < 2 ^ n -> Z.pos (digits2_pos p) <= n.
Proof.
  intros Hn Hp. destruct (Z.le_gt_cases (Z.pos (digits2_pos p)) n) as [| Hgt];
    [ done | exfalso ].
  pose proof (digits2_pos_bounds p) as [Hlo _].
  assert (2 ^ n <= 2 ^ (Z.pos (digits2_pos p) - 1))
    by (apply Z.pow_le_mono_r; lia).
  lia.
Qed.

Lemma digits2_pos_mono p q :
  (p <= q)%positive -> Z.pos (digits2_pos p) <= Z.pos (digits2_pos q).
Proof.
  intros Hpq. apply digits2_pos_le; [ lia | ].
  pose proof (digits2_pos_bounds q). lia.
Qed.

Lemma binary_round_aux_exact s m e :
  Z.pos (digits2_pos m) = 53 -> -1074 <= e <= 971 ->
  binary_round_aux Float64.prec Float64.emax s (Z.pos m) e loc_Exact
  = S754_finite s m e.
Proof.
  intros Hd He. unfold binary_round_aux, shr_fexp, fexp, emin.
  unfold Float64.prec, Float64.emax. cbn [Zdigits2 shr_record_of_loc].
  rewrite Hd.
  replace (Z.max (53 + e - 53) (3 - 1024 - 53) - e) with 0 by lia.
  cbn [shr shr_m loc_of_shr_record round_nearest_even Zdigits2].
  rewrite Hd.
  replace (Z.max (53 + e - 53) (3 - 1024 - 53) - e) with 0 by lia.
  cbn [shr shr_m].
  by rewrite (proj2 (Z.leb_le _ _)) by lia.
Qed.

Lemma pos_2_53 p :
  Z.pos p <= 2 ^ 53 -> ~ Z.pos p < 2 ^ 53 -> p = 9007199254740992%positive.
Proof.
  intros Hle Hlt. apply Pos2Z.inj.
  change (Z.pos 9007199254740992) with (2 ^ 53). lia.
Qed.

Lemma binary_round_small s p :
  Z.pos p <= 2 ^ 53 ->
  binary_round Float64.prec Float64.emax s p 0
  = S754_finite s (normal_mantissa p) (normal_exponent p).
Proof.
  intros Hp. destruct (Z.lt_ge_cases (Z.pos p) (2 ^ 53)) as [Hlt | Hge].
  - pose proof (digits2_pos_le p 53 ltac:(lia) Hlt) as Hd.
    unfold binary_round, shl_align, fexp, emin, normal_mantissa,
      normal_exponent.
    unfold Float64.prec, Float64.emax.
    replace (Z.max (Z.pos (digits2_pos p) + 0 - 53) (3 - 1024 - 53) - 0)
      with (Z.pos (digits2_pos p) - 53) by lia.
    replace (Z.max (Z.pos (digits2_pos p) + 0 - 53) (3 - 1024 - 53))
      with (Z.pos (digits2_pos p) - 53) by lia.
    destruct (Z.pos (digits2_pos p) - 53) as [| k | k] eqn:Hk.
    + apply binary_round_aux_exact; lia.
    + lia.
    + apply binary_round_aux_exact; [ | lia ].
      rewrite digits2_pos_shift. lia.
  - rewrite (pos_2_53 p) by lia. by vm_compute.
Qed.

(** The mantissa and the exponent denote the integer: mantissa * 2^exponent
    = p, stated with both sides scaled by 2^52. *)
Lemma normal_mantissa_value p :
  Z.pos p <= 2 ^ 53 ->
  - 52 <= normal_exponent p <= 1
  /\ Z.pos (normal_mantissa p) * 2 ^ (normal_exponent p + 52)
     = Z.pos p * 2 ^ 52.
Proof.
  intros Hp. destruct (Z.lt_ge_cases (Z.pos p) (2 ^ 53)) as [Hlt | Hge].
  - pose proof (digits2_pos_le p 53 ltac:(lia) Hlt) as Hd.
    unfold normal_mantissa.
    destruct (normal_exponent p) as [| k | k] eqn:Hk;
      unfold normal_exponent in Hk.
    + split; [ lia | reflexivity ].
    + lia.
    + split; [ lia | ]. rewrite pos_shift_value, <- Z.mul_assoc. f_equal.
      rewrite <- Z.pow_add_r by lia. f_equal. lia.
  - rewrite (pos_2_53 p) by lia. by vm_compute.
Qed.

Lemma normal_compare p q :
  Z.pos p <= 2 ^ 53 -> Z.pos q <= 2 ^ 53 ->
  match normal_exponent p ?= normal_exponent q with
  | Lt => Lt
  | Gt => Gt
  | Eq => Pos.compare_cont Eq (normal_mantissa p) (normal_mantissa q)
  end = (p ?= q)%positive.
Proof.
  intros Hp Hq.
  pose proof (digits2_pos_bounds p) as Hbp.
  pose proof (digits2_pos_bounds q) as Hbq.
  destruct (Z.compare_spec (normal_exponent p) (normal_exponent q))
    as [Heq | Hlt | Hgt].
  - change (Pos.compare_cont Eq ?a ?b) with (a ?= b)%positive.
    destruct (normal_mantissa_value p Hp) as [Hrange Hvp].
    destruct (normal_mantissa_value q Hq) as [_ Hvq].
    rewrite <- Heq in Hvq.
    assert (2 ^ (normal_exponent p + 52) > 0) as Hscale
      by (apply Z.lt_gt, Z.pow_pos_nonneg; lia).
    rewrite !Pos2Z.inj_compare.
    rewrite (Zmult_compare_compat_r _ _ _ Hscale), Hvp, Hvq.
    symmetry. apply Zmult_compare_compat_r. lia.
  - symmetry. apply Pos.compare_lt_iff. unfold normal_exponent in Hlt.
    assert (2 ^ Z.pos (digits2_pos p) <= 2 ^ (Z.pos (digits2_pos q) - 1))
      by (apply Z.pow_le_mono_r; lia).
    lia.
  - symmetry. apply Pos.compare_gt_iff. unfold normal_exponent in Hgt.
    assert (2 ^ Z.pos (digits2_pos q) <= 2 ^ (Z.pos (digits2_pos p) - 1))
      by (apply Z.pow_le_mono_r; lia).
    lia.
Qed.

(** Conversion to [float64] keeps the order of safe integers. *)
Lemma of_int_compare a b :
  safe_integer a -> safe_integer b ->
  SFcompare (Float64.of_int a) (Float64.of_int b) = Some (a ?= b).
Proof.
  unfold safe_integer, Float64.of_int, binary_normalize. intros Ha Hb.
  destruct a as [| p | p], b as [| q | q];
    rewrite ?binary_round_small by lia; try reflexivity.
  - cbn [SFcompare]. by rewrite normal_compare by lia.
  - cbn [SFcompare].
    change (Z.neg p ?= Z.neg q) with (CompOpp (p ?= q)%positive).
    rewrite <- (normal_compare p q) by lia.
    by destruct (normal_exponent p ?= normal_exponent q).
Qed.

(** Conversion to [float64] and back is the identity on safe integers. *)
Lemma truncate_of_int a :
  safe_integer a -> Float64.truncate (Float64.of_int a) = Some a.
Proof.
  unfold safe_integer, Float64.of_int, binary_normalize. intros Ha.
  assert (forall p, Z.pos p <= 2 ^ 53 ->
            (if 0 <=? normal_exponent p
             then Z.pos (normal_mantissa p) * 2 ^ normal_exponent p
             else Z.pos (normal_mantissa p) `div` 2 ^ (- normal_exponent p))
            = Z.pos p) as Hmag.
  { intros p Hp. destruct (normal_mantissa_value p Hp) as [Hrange Hv].
    destruct (Z.leb_spec 0 (normal_exponent p)) as [Hle | Hlt].
    - rewrite Z.pow_add_r, Z.mul_assoc in Hv by lia.
      apply Z.mul_cancel_r in Hv; lia.
    - replace (2 ^ 52) with (2 ^ (- normal_exponent p)
                             * 2 ^ (normal_exponent p + 52)) in Hv
        by (rewrite <- Z.pow_add_r by lia; f_equal; lia).
      rewrite Z.mul_assoc in Hv.
      apply Z.mul_cancel_r in Hv;
        [ | apply Z.pow_nonzero; lia ].
      rewrite Hv. apply Z.div_mul. apply Z.pow_nonzero; lia. }
  destruct a as [| p | p]; [ reflexivity | | ];
    rewrite binary_round_small by lia; unfold Float64.truncate;
    rewrite Hmag by lia; reflexivity.
Qed.

Lemma Max_of_int a b :
  safe_integer a -> safe_integer b ->
  Float64.Max (Float64.of_int a) (Float64.of_int b)
  = Float64.of_int (Z.max a b).
Proof.
  intros Ha Hb. pose proof (of_int_compare b a Hb Ha) as Hcmp.
  assert (Float64.Max (Float64.of_int a) (Float64.of_int b)
          = if SFltb (Float64.of_int b) (Float64.of_int a)
            then Float64.of_int a else Float64.of_int b) as ->.
  { clear Hcmp. unfold safe_integer, Float64.of_int, binary_normalize in *.
    destruct a as [| p | p], b as [| q | q];
      rewrite ?binary_round_small by lia; reflexivity. }
  unfold SFltb. rewrite Hcmp. unfold Z.max.
  rewrite (Z.compare_antisym b a).
  destruct (Z.compare_spec b a) as [-> | _ | _]; reflexivity.
Qed.

End Float64Facts.

(** C8, as stated, fails beyond 2^53: the timestamp 2^53 + 1 is not a
    binary64 number, and the check point of a state with that timestamp,
    gap 0 and event timestamp 0 is 2^53. *)
Lemma GetCheckPoint_rounds_large_timestamp :
  GetCheckPoint late_state 0 = Some (2 ^ 53)
  /\ GetCheckPoint late_state 0
     <> Some (Z.max (MetricState.Timestamp late_state - 0)
                    (MetricState.EventTimestamp late_state)).
Proof. vm_compute. split; [ reflexivity | discriminate ]. Qed.

(** C8, amended. For a non-negative gap, when Timestamp - gap and
    EventTimestamp are both of magnitude at most 2^53, [GetCheckPoint]
    returns max(Timestamp - gap, EventTimestamp). *)
Theorem GetCheckPoint_max (s : MetricState.t) (gap : Z) :
  0 <= gap ->
  - 2 ^ 53 <= MetricState.Timestamp s - gap <= 2 ^ 53 ->
  - 2 ^ 53 <= MetricState.EventTimestamp s <= 2 ^ 53 ->
  GetCheckPoint s gap
  = Some (Z.max (MetricState.Timestamp s - gap) (MetricState.EventTimestamp s)).
Proof.
  intros _ Hdiff Hevent. unfold GetCheckPoint, Int64.sub.
  rewrite wrap64_id by (unfold in_range, min_int, max_int; lia).
  rewrite Max_of_int by done.
  unfold Float64.to_int64. rewrite truncate_of_int by (unfold safe_integer; lia).
  cbn [mbind option_bind].
  rewrite (proj2 (Z.leb_le _ _)) by (unfold min_int; lia).
  by rewrite (proj2 (Z.leb_le _ _)) by (unfold max_int; lia).
Qed.

Lemma GetCheckPoint_max_witness :
  GetCheckPoint (MetricState.mk 1400 "OK" false "" 1500 None 0) 120
  = Some 1400.
Proof.
  rewrite GetCheckPoint_max; [ reflexivity | lia | simpl; lia | simpl; lia ].
Defined.

Section SearchFacts.

Lemma insert_sorted_length {D} (le : D -> D -> bool) x l :
  length (ListIndex.insert_sorted le x l) = S (length l).
Proof.
  induction l as [| y l IH]; simpl; [ done | ].
  destruct (le x y); simpl; [ done | by rewrite IH ].
Qed.

Lemma sort_length {D} (le : D -> D -> bool) l :
  length (ListIndex.sort le l) = length l.
Proof.
  induction l as [| x l IH]; simpl; [ done | ].
  by rewrite insert_sorted_length, IH.
Qed.

(** The hits of a query are documents of the index. *)
Lemma all_hits_length {D Q} (m : ListIndex.Matcher D Q) index query :
  (length (ListIndex.all_hits m index query)
   <= length (ListIndex.documents index))%nat.
Proof.
  unfold ListIndex.all_hits. rewrite length_map, sort_length.
  apply List.filter_length_le.
Qed.

End SearchFacts.

(** C9. With size < 0, [Search] behaves as the call with page 0 and size
    the number of indexed documents, for every index; and on an open index
    that call returns all the hits of the query in one page, with their
    count as total. *)
Theorem Search_negative_size_returns_all :
  (forall I Q (bleve : Bleve.Index I Q) (env : SearchEnv Q) (index : I)
          filterTags searchString onlyErrors page size,
      size < 0 ->
      Search env index filterTags searchString onlyErrors page size
      = Search env index filterTags searchString onlyErrors 0
               (Int64.wrap64 (Bleve.DocCount index).1))
  /\ (forall D Q (m : ListIndex.Matcher D Q) (env : SearchEnv Q)
             (index : ListIndex.t D) filterTags searchString onlyErrors
             page size,
        size < 0 ->
        ListIndex.closed index = false ->
        Z.of_nat (length (ListIndex.documents index)) <= Int64.max_int ->
        let found :=
          ListIndex.all_hits m index
            (buildSearchQuery env filterTags
               (splitStringToTerms env searchString) onlyErrors) in
        @Search _ _ (ListIndex.index_of m) env index filterTags searchString
                onlyErrors page size
        = Some (map (result_of_hit env) found, Z.of_nat (length found),
                None)).
Proof.
  split.
  - intros I Q bleve env index filterTags searchString onlyErrors page size
      Hsize.
    unfold Search. rewrite (proj2 (Z.ltb_lt _ _) Hsize).
    by destruct (Int64.wrap64 (Bleve.DocCount index).1 <? 0).
  - intros D Q m env index filterTags searchString onlyErrors page size
      Hsize Hopen Hcount found.
    unfold Search. rewrite (proj2 (Z.ltb_lt _ _) Hsize).
    cbn [Bleve.DocCount Bleve.Search ListIndex.index_of].
    unfold ListIndex.DocCount, ListIndex.Search. rewrite Hopen.
    cbn [fst buildSearchRequest Bleve.Query Bleve.Size Bleve.From].
    fold found.
    pose proof (all_hits_length m index
                  (buildSearchQuery env filterTags
                     (splitStringToTerms env searchString) onlyErrors))
      as Hfound.
    fold found in Hfound.
    rewrite (wrap64_id (Z.of_nat (length (ListIndex.documents index))))
      by (unfold in_range, min_int, max_int in *; lia).
    unfold Int64.mul. rewrite Z.mul_0_l.
    change (Z.to_nat (wrap64 0)) with 0%nat. rewrite drop_0.
    rewrite take_ge by lia.
    cbn [Bleve.Total Bleve.Hits].
    rewrite wrap64_id by (unfold in_range, min_int, max_int in *; lia).
    destruct found as [| h found']; [ reflexivity | ].
    rewrite (proj2 (Z.ltb_ge _ _)) by lia. reflexivity.
Qed.

Lemma Search_negative_size_returns_all_witness :
  @Search _ _ (ListIndex.index_of sample_matcher) sample_env sample_index
          ["t_ok"; "t_nodata"] "t_error" false 7 (-1)
  = Some ([TriggerSearchResult.mk "t_nodata" (SearchHighLights.mk "" "");
           TriggerSearchResult.mk "t_error" (SearchHighLights.mk "" "");
           TriggerSearchResult.mk "t_ok" (SearchHighLights.mk "" "")],
          3, None).
Proof.
  rewrite (proj2 Search_negative_size_returns_all);
    [ vm_compute; reflexivity | lia | reflexivity | vm_compute; discriminate ].
Defined.

(** * Further properties *)

Section MustIgnoreMore.

Lemma policy_states_dec state :
  {state ∈ policy_states} + {state ∉ policy_states}.
Proof. apply (decide (state ∈ policy_states)). Qed.

(** On the states of the table, the answer as the source computes it from
    the difference of the weights. *)
Lemma MustIgnore_by_delta s e :
  NotificationEvent.OldState e ∈ policy_states ->
  NotificationEvent.State e ∈ policy_states ->
  MustIgnore s e
  = if policy_delta e <? 0 then
      if (policy_delta e =? -1)
         && (SubscriptionData.IgnoreRecoverings s
             || SubscriptionData.IgnoreWarnings s)
      then true
      else SubscriptionData.IgnoreRecoverings s
    else if policy_delta e =? 1 then SubscriptionData.IgnoreWarnings s
    else false.
Proof.
  intros Hold Hnew. unfold MustIgnore, policy_delta.
  rewrite (eventStateWeight_policy _ Hold), (eventStateWeight_policy _ Hnew).
  pose proof (policy_weight_range _ Hold) as Ho.
  pose proof (policy_weight_range _ Hnew) as Hn.
  cbv zeta. unfold Int64.sub.
  by rewrite wrap64_id by (unfold in_range, min_int, max_int; lia).
Qed.

Lemma MustIgnore_true_in_table s e :
  MustIgnore s e = true ->
  NotificationEvent.OldState e ∈ policy_states
  /\ NotificationEvent.State e ∈ policy_states.
Proof.
  intros Htrue.
  destruct (policy_states_dec (NotificationEvent.OldState e)) as [Ho | Ho];
    destruct (policy_states_dec (NotificationEvent.State e)) as [Hn | Hn];
    try done; exfalso; unfold MustIgnore in Htrue.
  - rewrite (eventStateWeight_outside _ Hn) in Htrue.
    by destruct (eventStateWeight !! _).
  - by rewrite (eventStateWeight_outside _ Ho) in Htrue.
  - by rewrite (eventStateWeight_outside _ Ho) in Htrue.
Qed.

End MustIgnoreMore.

(** X1. What the ignore policy can suppress.  [MustIgnore] answers true
    exactly when both states are in the weight table and either the new
    state weighs less than the old one and recoverings are ignored, or the
    transition is WARN to OK or OK to WARN and warnings are ignored. *)
Theorem MustIgnore_true_iff (s : SubscriptionData.t) (e : NotificationEvent.t) :
  MustIgnore s e = true <->
  NotificationEvent.OldState e ∈ policy_states
  /\ NotificationEvent.State e ∈ policy_states
  /\ ((policy_weight (NotificationEvent.State e)
       < policy_weight (NotificationEvent.OldState e)
       /\ SubscriptionData.IgnoreRecoverings s = true)
      \/ (SubscriptionData.IgnoreWarnings s = true
          /\ ((NotificationEvent.OldState e = "WARN"
               /\ NotificationEvent.State e = "OK")
              \/ (NotificationEvent.OldState e = "OK"
                  /\ NotificationEvent.State e = "WARN")))).
Proof.
  split.
  - intros Htrue. destruct (MustIgnore_true_in_table s e Htrue) as [Ho Hn].
    split; [ done | ]. split; [ done | ].
    rewrite (MustIgnore_by_delta s e Ho Hn) in Htrue.
    unfold policy_delta, policy_states in *.
    repeat (apply elem_of_cons in Ho as [Ho | Ho]);
      try (by apply elem_of_nil in Ho);
      repeat (apply elem_of_cons in Hn as [Hn | Hn]);
      try (by apply elem_of_nil in Hn);
      rewrite Ho, Hn in *;
      destruct (SubscriptionData.IgnoreRecoverings s),
        (SubscriptionData.IgnoreWarnings s);
      vm_compute in Htrue; try discriminate Htrue;
      vm_compute; auto 6.
  - intros (Ho & Hn & Hcases).
    rewrite (MustIgnore_by_delta s e Ho Hn).
    pose proof (policy_weight_range _ Ho) as Hro.
    pose proof (policy_weight_range _ Hn) as Hrn.
    unfold policy_delta.
    destruct Hcases as [[Hlt ->] | [-> [[Hw Hk] | [Hk Hw]]]].
    + rewrite (proj2 (Z.ltb_lt _ _)) by lia.
      destruct (_ =? -1); reflexivity.
    + rewrite Hw, Hk.
      by destruct (SubscriptionData.IgnoreRecoverings s); vm_compute.
    + rewrite Hw, Hk. by vm_compute.
Qed.

(** X2. A subscription with neither ignore flag set never has an event
    ignored, whatever the states of the event. *)
Theorem MustIgnore_without_flags (s : SubscriptionData.t)
    (e : NotificationEvent.t) :
  SubscriptionData.IgnoreWarnings s = false ->
  SubscriptionData.IgnoreRecoverings s = false ->
  MustIgnore s e = false.
Proof.
  intros Hw Hr. destruct (MustIgnore s e) eqn:Htrue; [ | done ].
  destruct (MustIgnore_true_in_table s e Htrue) as [Ho Hn].
  rewrite (MustIgnore_by_delta s e Ho Hn), Hw, Hr in Htrue.
  by destruct (policy_delta e <? 0), (policy_delta e =? -1),
       (policy_delta e =? 1).
Qed.

Lemma MustIgnore_without_flags_witness :
  MustIgnore (sample_subscription false false) (sample_event "ERROR" "OK")
  = false.
Proof. apply MustIgnore_without_flags; reflexivity. Defined.

(** X3. Setting more ignore flags never lets through an event that was
    ignored: the answer is monotone in both flags, and depends on nothing
    else in the subscription. *)
Theorem MustIgnore_monotone (s s' : SubscriptionData.t)
    (e : NotificationEvent.t) :
  (SubscriptionData.IgnoreWarnings s = true ->
   SubscriptionData.IgnoreWarnings s' = true) ->
  (SubscriptionData.IgnoreRecoverings s = true ->
   SubscriptionData.IgnoreRecoverings s' = true) ->
  MustIgnore s e = true -> MustIgnore s' e = true.
Proof.
  intros Hw Hr Htrue.
  destruct (MustIgnore_true_in_table s e Htrue) as [Ho Hn].
  rewrite (MustIgnore_by_delta s e Ho Hn) in Htrue.
  rewrite (MustIgnore_by_delta s' e Ho Hn).
  destruct (SubscriptionData.IgnoreWarnings s),
    (SubscriptionData.IgnoreRecoverings s),
    (policy_delta e <? 0), (policy_delta e =? -1), (policy_delta e =? 1);
    simpl in Htrue; try discriminate Htrue;
    rewrite ?Hw, ?Hr by done; simpl; try reflexivity;
    by destruct (SubscriptionData.IgnoreWarnings s'),
         (SubscriptionData.IgnoreRecoverings s').
Qed.

Lemma MustIgnore_monotone_witness :
  MustIgnore (sample_subscription true true) (sample_event "OK" "WARN") = true.
Proof.
  apply (MustIgnore_monotone (sample_subscription true false));
    [ reflexivity | discriminate | reflexivity ].
Defined.

Section CheckDataMore.

Lemma UpdateScore_exact c :
  Z.of_nat (size (table (CheckData.Metrics c))) < 2 ^ 46 ->
  (UpdateScore c).2 = severity_total c.
Proof.
  intros Hsize. unfold UpdateScore, severity_total.
  cbn [fst snd CheckData.set_Score CheckData.Score].
  pose proof (severity_weight_range (CheckData.State c)) as Hw.
  pose proof (severity_sum_range
                (map_to_list (table (CheckData.Metrics c)))) as Hs.
  rewrite length_map_to_list in Hs.
  rewrite add_scores_wrap, score_of_severity;
    [ | rewrite score_of_severity; unfold in_range, min_int, max_int; lia ].
  apply wrap64_id. unfold in_range, min_int, max_int. lia.
Qed.

Lemma severity_weight_zero state :
  severity_weight state = 0 <-> state ∉ alarming_states.
Proof.
  unfold severity_weight, alarming_states. split.
  - intros Hzero Hin.
    repeat (apply elem_of_cons in Hin as [-> | Hin]);
      try (by apply elem_of_nil in Hin); by vm_compute in Hzero.
  - intros Hout.
    repeat (case_decide; [ subst; try reflexivity;
                           exfalso; apply Hout; in_table | ]).
    reflexivity.
Qed.

Lemma severity_sum_zero metrics :
  severity_sum metrics = 0 <->
  forall kv, kv ∈ metrics -> severity_weight (MetricState.State kv.2) = 0.
Proof.
  induction metrics as [| kv metrics IH]; simpl.
  - split; [ | done ]. intros _ kv Hin. by apply elem_of_nil in Hin.
  - pose proof (severity_weight_range (MetricState.State kv.2)) as Hw.
    pose proof (severity_sum_range metrics) as Hs.
    split.
    + intros Hzero kv' Hin. apply elem_of_cons in Hin as [-> | Hin].
      * lia.
      * apply IH; [ lia | done ].
    + intros Hall.
      rewrite (Hall kv) by apply list_elem_of_here.
      rewrite (proj2 IH); [ done | ].
      intros kv' Hin. apply Hall. by apply list_elem_of_further.
Qed.

Lemma severity_sum_insert (metrics : gmap string MetricState.t) metric st :
  metrics !! metric = None ->
  severity_sum (map_to_list (<[metric := st]> metrics))
  = severity_weight (MetricState.State st)
    + severity_sum (map_to_list metrics).
Proof.
  intros Hnone.
  by rewrite (severity_sum_perm _ _ (map_to_list_insert metrics metric st Hnone)).
Qed.

(** The outcome of [GetOrCreateMetricState] on an allocated map. *)
Lemma GetOrCreateMetricState_cases unixNow c metrics metric from mute :
  CheckData.Metrics c = Some metrics ->
  GetOrCreateMetricState unixNow c metric from mute
  = match metrics !! metric with
    | Some existing => Some (c, existing)
    | None =>
      Some (CheckData.set_Metrics
              (Some (<[metric := fresh_state unixNow from mute]> metrics)) c,
            fresh_state unixNow from mute)
    end.
Proof.
  intros Hm. unfold GetOrCreateMetricState, map_lookup, map_index, map_lookup.
  rewrite Hm. cbn [table default from_option id].
  destruct (metrics !! metric) as [existing |] eqn:Hlook.
  - rewrite bool_decide_eq_true_2 by eauto. cbn.
    rewrite Hm. cbn. by rewrite Hlook.
  - rewrite bool_decide_eq_false_2 by (intros [? ?]; discriminate). cbn.
    rewrite lookup_insert_eq. cbn.
    destruct mute; reflexivity.
Qed.

Lemma GetOrCreateMetricState_nil unixNow c metric from mute :
  CheckData.Metrics c = None ->
  GetOrCreateMetricState unixNow c metric from mute = None.
Proof.
  intros Hm. unfold GetOrCreateMetricState, map_lookup. rewrite Hm.
  cbn [table default from_option]. rewrite lookup_empty.
  rewrite bool_decide_eq_false_2 by (intros [? ?]; discriminate).
  reflexivity.
Qed.

End CheckDataMore.

(** X4. Below 2^46 metrics, the score of a check is zero exactly when
    neither the state of the check nor the state of any of its metrics is
    WARN, ERROR, NODATA or EXCEPTION. *)
Theorem UpdateScore_zero_iff (c : CheckData.t) :
  Z.of_nat (size (table (CheckData.Metrics c))) < 2 ^ 46 ->
  (snd (UpdateScore c) = 0 <->
   (CheckData.State c ∉ alarming_states)
   /\ forall metric st,
        map_lookup (CheckData.Metrics c) metric = Some st ->
        MetricState.State st ∉ alarming_states).
Proof.
  intros Hsize. rewrite (UpdateScore_exact c Hsize). unfold severity_total.
  pose proof (severity_weight_range (CheckData.State c)) as Hw.
  pose proof (severity_sum_range
                (map_to_list (table (CheckData.Metrics c)))) as Hs.
  rewrite <- severity_weight_zero. unfold map_lookup. split.
  - intros Hzero. split; [ lia | ]. intros metric st Hlook.
    apply severity_weight_zero.
    assert (severity_sum (map_to_list (table (CheckData.Metrics c))) = 0)
      as Hsum by lia.
    apply (proj1 (severity_sum_zero _) Hsum (metric, st)).
    by apply elem_of_map_to_list.
  - intros [Hstate Hall].
    rewrite Hstate, (proj2 (severity_sum_zero _)); [ done | ].
    intros [metric st] Hin. apply severity_weight_zero.
    apply (Hall metric). by apply elem_of_map_to_list.
Qed.

Lemma UpdateScore_zero_iff_witness :
  (UpdateScore
     (CheckData.mk (Some {["m" := sample_metric "OK"]}) 7 "DEL" 0 0 0 0
                   false "" "")).2 = 0.
Proof.
  apply UpdateScore_zero_iff; [ by vm_compute | ].
  split; [ unfold alarming_states; not_in_table | ].
  intros metric st. unfold map_lookup. cbn [CheckData.Metrics table default from_option id].
  intros Hlook. apply lookup_singleton_Some in Hlook as [_ <-].
  unfold alarming_states. cbn. not_in_table.
Defined.

(** X5. Creating the state of a metric that the check does not hold yet
    raises the score by 1000 when the new metric starts in NODATA and
    leaves the score unchanged when it is muted and starts in OK. *)
Theorem UpdateScore_after_create (unixNow : Z) (c c' : CheckData.t)
    (metric : string) (from : Z) (mute : bool) (st : MetricState.t) :
  map_lookup (CheckData.Metrics c) metric = None ->
  Z.of_nat (size (table (CheckData.Metrics c))) + 1 < 2 ^ 46 ->
  GetOrCreateMetricState unixNow c metric from mute = Some (c', st) ->
  (UpdateScore c').2 = (UpdateScore c).2 + (if mute then 0 else 1000).
Proof.
  intros Hnone Hsize Hcall.
  destruct (CheckData.Metrics c) as [metrics |] eqn:Hm;
    [ | by rewrite (GetOrCreateMetricState_nil _ _ _ _ _ Hm) in Hcall ].
  rewrite (GetOrCreateMetricState_cases _ _ _ _ _ _ Hm) in Hcall.
  unfold map_lookup in Hnone. cbn [table default from_option id] in *.
  rewrite Hnone in Hcall. injection Hcall as <- <-.
  rewrite !UpdateScore_exact.
  - unfold severity_total. cbn [CheckData.set_Metrics CheckData.Metrics
      CheckData.State table default from_option id].
    rewrite Hm. cbn [table default from_option id].
    rewrite severity_sum_insert by done.
    assert (severity_weight
              (MetricState.State (fresh_state unixNow from mute))
            = if mute then 0 else 1000) as ->
      by (by destruct mute).
    lia.
  - rewrite Hm. cbn [table default from_option id]. lia.
  - cbn [CheckData.set_Metrics CheckData.Metrics table default from_option id].
    rewrite map_size_insert_None by done. lia.
Qed.

Lemma UpdateScore_after_create_witness :
  (UpdateScore
     (CheckData.set_Metrics
        (Some (<["d" := fresh_state 1500000000 5 false]>
                 (table (CheckData.Metrics sample_check))))
        sample_check)).2
  = (UpdateScore sample_check).2 + 1000.
Proof.
  apply (UpdateScore_after_create 1500000000 sample_check _ "d" 5 false
           (fresh_state 1500000000 5 false));
    [ reflexivity | by vm_compute | reflexivity ].
Defined.

(** X6. [GetOrCreateMetricState] is stable: once a call has succeeded, any
    later call for the same metric returns the same state and leaves the
    check as it is, whatever the clock, the timestamp and the mute flag of
    the later call. *)
Theorem GetOrCreateMetricState_stable (unixNow unixNow' : Z)
    (c c' : CheckData.t) (metric : string) (from from' : Z)
    (mute mute' : bool) (st : MetricState.t) :
  GetOrCreateMetricState unixNow c metric from mute = Some (c', st) ->
  GetOrCreateMetricState unixNow' c' metric from' mute' = Some (c', st).
Proof.
  intros Hcall.
  destruct (CheckData.Metrics c) as [metrics |] eqn:Hm;
    [ | by rewrite (GetOrCreateMetricState_nil _ _ _ _ _ Hm) in Hcall ].
  rewrite (GetOrCreateMetricState_cases _ _ _ _ _ _ Hm) in Hcall.
  destruct (metrics !! metric) as [existing |] eqn:Hlook;
    injection Hcall as <- <-.
  - by rewrite (GetOrCreateMetricState_cases _ _ _ _ _ _ Hm), Hlook.
  - rewrite (GetOrCreateMetricState_cases _ _
               (<[metric := fresh_state unixNow from mute]> metrics))
      by reflexivity.
    by rewrite lookup_insert_eq.
Qed.

Lemma GetOrCreateMetricState_stable_witness :
  GetOrCreateMetricState 1600000000
    (CheckData.set_Metrics
       (Some (<["d" := fresh_state 1500000000 5 false]>
                (table (CheckData.Metrics sample_check))))
       sample_check) "d" 9 true
  = Some (CheckData.set_Metrics
            (Some (<["d" := fresh_state 1500000000 5 false]>
                     (table (CheckData.Metrics sample_check))))
            sample_check,
          fresh_state 1500000000 5 false).
Proof.
  apply (GetOrCreateMetricState_stable 1500000000 1600000000 sample_check
           _ "d" 5 9 false true).
  reflexivity.
Defined.

(** X7. A successful [GetOrCreateMetricState] leaves the returned state
    under the metric, keeps the state of every other metric, and changes
    no other field of the check. *)
Theorem GetOrCreateMetricState_frame (unixNow : Z) (c c' : CheckData.t)
    (metric : string) (from : Z) (mute : bool) (st : MetricState.t) :
  GetOrCreateMetricState unixNow c metric from mute = Some (c', st) ->
  map_lookup (CheckData.Metrics c') metric = Some st
  /\ (forall other, other <> metric ->
        map_lookup (CheckData.Metrics c') other
        = map_lookup (CheckData.Metrics c) other)
  /\ c' = CheckData.set_Metrics (CheckData.Metrics c') c.
Proof.
  intros Hcall.
  destruct (CheckData.Metrics c) as [metrics |] eqn:Hm;
    [ | by rewrite (GetOrCreateMetricState_nil _ _ _ _ _ Hm) in Hcall ].
  rewrite (GetOrCreateMetricState_cases _ _ _ _ _ _ Hm) in Hcall.
  unfold map_lookup.
  destruct (metrics !! metric) as [existing |] eqn:Hlook;
    injection Hcall as <- <-.
  - rewrite Hm. cbn [table default from_option id].
    repeat split; [ done | ]. by destruct c; cbn in *; subst.
  - cbn [CheckData.set_Metrics CheckData.Metrics table default from_option id].
    split; [ apply lookup_insert_eq | ]. split; [ | done ].
    intros other Hother. by rewrite lookup_insert_ne.
Qed.

Lemma GetOrCreateMetricState_frame_witness :
  map_lookup
    (CheckData.Metrics
       (CheckData.set_Metrics
          (Some (<["d" := fresh_state 1500000000 5 false]>
                   (table (CheckData.Metrics sample_check))))
          sample_check)) "a"
  = map_lookup (CheckData.Metrics sample_check) "a".
Proof.
  refine (proj1 (proj2 (GetOrCreateMetricState_frame 1500000000 sample_check
                          _ "d" 5 false _ _)) "a" _);
    [ reflexivity | discriminate ].
Defined.

(** X8. [GetOrCreateMetricState] panics exactly when the metrics map of
    the check is nil; on an allocated map it always returns a state. *)
Theorem GetOrCreateMetricState_panics_iff_nil (unixNow : Z) (c : CheckData.t)
    (metric : string) (from : Z) (mute : bool) :
  GetOrCreateMetricState unixNow c metric from mute = None
  <-> CheckData.Metrics c = None.
Proof.
  split.
  - intros Hcall. destruct (CheckData.Metrics c) as [metrics |] eqn:Hm;
      [ | done ].
    rewrite (GetOrCreateMetricState_cases _ _ _ _ _ _ Hm) in Hcall.
    by destruct (metrics !! metric).
  - apply GetOrCreateMetricState_nil.
Qed.

Section CheckPointMore.

(** The check point on safe integers, whatever the sign of the gap. *)
Lemma GetCheckPoint_safe s gap :
  safe_integer (MetricState.Timestamp s - gap) ->
  safe_integer (MetricState.EventTimestamp s) ->
  GetCheckPoint s gap
  = Some (Z.max (MetricState.Timestamp s - gap) (MetricState.EventTimestamp s)).
Proof.
  unfold safe_integer. intros Hdiff Hevent. unfold GetCheckPoint, Int64.sub.
  rewrite wrap64_id by (unfold in_range, min_int, max_int; lia).
  rewrite Max_of_int by done.
  unfold Float64.to_int64.
  rewrite truncate_of_int by (unfold safe_integer; lia).
  cbn [mbind option_bind].
  rewrite (proj2 (Z.leb_le _ _)) by (unfold min_int; lia).
  by rewrite (proj2 (Z.leb_le _ _)) by (unfold max_int; lia).
Qed.

End CheckPointMore.

(** X9. The event timestamp of a state just created is the timestamp it
    was created with: the given timestamp for a state that starts in
    NODATA, the wall-clock time for a state that starts in OK. *)
Theorem GetEventTimestamp_of_new_state (unixNow from : Z)
    (firstStateIsNodata : bool) :
  MetricState_GetEventTimestamp
    (createEmptyMetricState unixNow from firstStateIsNodata)
  = if firstStateIsNodata then from else unixNow.
Proof.
  unfold MetricState_GetEventTimestamp, createEmptyMetricState.
  destruct firstStateIsNodata; cbn; [ reflexivity | ].
  by destruct (Z.eqb_spec unixNow 0).
Qed.

(** X10. [GetEventTimestamp], of a metric state and of a check, falls back
    on the timestamp: it returns the event timestamp or the timestamp, and
    it is zero only when both are zero. *)
Theorem GetEventTimestamp_fallback :
  (forall s : MetricState.t,
      (MetricState_GetEventTimestamp s = MetricState.EventTimestamp s
       \/ MetricState_GetEventTimestamp s = MetricState.Timestamp s)
      /\ (MetricState_GetEventTimestamp s = 0 <->
          MetricState.EventTimestamp s = 0 /\ MetricState.Timestamp s = 0))
  /\ (forall c : CheckData.t,
        (CheckData_GetEventTimestamp c = CheckData.EventTimestamp c
         \/ CheckData_GetEventTimestamp c = CheckData.Timestamp c)
        /\ (CheckData_GetEventTimestamp c = 0 <->
            CheckData.EventTimestamp c = 0 /\ CheckData.Timestamp c = 0)).
Proof.
  split.
  - intros s. unfold MetricState_GetEventTimestamp.
    destruct (Z.eqb_spec (MetricState.EventTimestamp s) 0); intuition lia.
  - intros c. unfold CheckData_GetEventTimestamp.
    destruct (Z.eqb_spec (CheckData.EventTimestamp c) 0); intuition lia.
Qed.

(** X11. For a state whose event timestamp does not come after its
    timestamp, and a non-negative gap, the check point lies between the
    event timestamp and the timestamp, and never before timestamp - gap
    (all values of magnitude at most 2^53). *)
Theorem GetCheckPoint_between (s : MetricState.t) (gap : Z) :
  0 <= gap ->
  MetricState.EventTimestamp s <= MetricState.Timestamp s ->
  safe_integer (MetricState.Timestamp s - gap) ->
  safe_integer (MetricState.EventTimestamp s) ->
  exists checkPoint,
    GetCheckPoint s gap = Some checkPoint
    /\ MetricState.EventTimestamp s <= checkPoint <= MetricState.Timestamp s
    /\ MetricState.Timestamp s - gap <= checkPoint.
Proof.
  intros Hgap Horder Hdiff Hevent.
  rewrite (GetCheckPoint_safe s gap Hdiff Hevent).
  eexists. split; [ reflexivity | ]. lia.
Qed.

Lemma GetCheckPoint_between_witness :
  exists checkPoint,
    GetCheckPoint (MetricState.mk 1400 "OK" false "" 1500 None 0) 120
    = Some checkPoint
    /\ 1400 <= checkPoint <= 1500 /\ 1500 - 120 <= checkPoint.
Proof.
  apply (GetCheckPoint_between (MetricState.mk 1400 "OK" false "" 1500 None 0)
           120); unfold safe_integer; cbn; lia.
Defined.

(** X12. A longer gap never gives a later check point. *)
Theorem GetCheckPoint_antitone (s : MetricState.t) (gap gap' : Z) :
  gap <= gap' ->
  safe_integer (MetricState.Timestamp s - gap) ->
  safe_integer (MetricState.Timestamp s - gap') ->
  safe_integer (MetricState.EventTimestamp s) ->
  exists checkPoint checkPoint',
    GetCheckPoint s gap = Some checkPoint
    /\ GetCheckPoint s gap' = Some checkPoint'
    /\ checkPoint' <= checkPoint.
Proof.
  intros Hgap Hdiff Hdiff' Hevent.
  rewrite (GetCheckPoint_safe s gap Hdiff Hevent).
  rewrite (GetCheckPoint_safe s gap' Hdiff' Hevent).
  do 2 eexists. split; [ reflexivity | ]. split; [ reflexivity | ]. lia.
Qed.

Lemma GetCheckPoint_antitone_witness :
  exists checkPoint checkPoint',
    GetCheckPoint (MetricState.mk 1000 "OK" false "" 1500 None 0) 120
    = Some checkPoint
    /\ GetCheckPoint (MetricState.mk 1000 "OK" false "" 1500 None 0) 300
       = Some checkPoint'
    /\ checkPoint' <= checkPoint.
Proof.
  apply (GetCheckPoint_antitone
           (MetricState.mk 1000 "OK" false "" 1500 None 0) 120 300);
    unfold safe_integer; cbn; lia.
Defined.

(** X13. The check point of a state just created: the wall-clock time for
    a state that starts in OK, whatever the gap, and the given timestamp
    less the gap, but not below zero, for a state that starts in NODATA. *)
Theorem GetCheckPoint_of_new_state (unixNow from gap : Z)
    (firstStateIsNodata : bool) :
  0 <= gap ->
  safe_integer unixNow -> safe_integer (unixNow - gap) ->
  safe_integer (from - gap) ->
  GetCheckPoint (createEmptyMetricState unixNow from firstStateIsNodata) gap
  = Some (if firstStateIsNodata then Z.max (from - gap) 0 else unixNow).
Proof.
  intros Hgap Hnow Hnowgap Hfrom. unfold safe_integer in *.
  destruct firstStateIsNodata; unfold createEmptyMetricState;
    rewrite GetCheckPoint_safe; cbn; unfold safe_integer; try lia;
    f_equal; lia.
Qed.

Lemma GetCheckPoint_of_new_state_witness :
  GetCheckPoint (createEmptyMetricState 1500000000 60 true) 120 = Some 0.
Proof.
  apply (GetCheckPoint_of_new_state 1500000000 60 120 true);
    unfold safe_integer; lia.
Defined.

Section GetSubjectStateMore.

Lemma last_present_ext (states states' : gmap string bool) order init :
  (forall x, x ∈ order ->
     default false (states !! x) = default false (states' !! x)) ->
  last_present states order init = last_present states' order init.
Proof.
  unfold last_present. revert init.
  induction order as [| y order IH]; intros init Hagree; [ done | ].
  simpl. rewrite (Hagree y) by apply list_elem_of_here.
  apply IH. intros x Hx. apply Hagree. by apply list_elem_of_further.
Qed.

Lemma position_inj x y order :
  x ∈ order -> y ∈ order ->
  position x order = position y order -> x = y.
Proof.
  induction order as [| z order IH]; intros Hx Hy Heq.
  - by apply elem_of_nil in Hx.
  - simpl in Heq. repeat case_decide; subst; try done.
    apply elem_of_cons in Hx as [-> | Hx]; [ done | ].
    apply elem_of_cons in Hy as [-> | Hy]; [ done | ].
    apply IH; [ done | done | lia ].
Qed.

Lemma empty_not_state : "" ∉ eventStates.
Proof. unfold eventStates. not_in_table. Qed.

(** The subject state, characterised: no state when no event carries a
    state of the table, and otherwise the carried state of the table that
    no carried state of the table follows. *)
Lemma GetSubjectState_char (events : NotificationEvents) r :
  GetSubjectState events = r <->
  (r = ""
   /\ forall st, st ∈ eventStates ->
        st ∉ NotificationEvent.State <$> events)
  \/ (r ∈ eventStates
      /\ r ∈ NotificationEvent.State <$> events
      /\ forall st, st ∈ eventStates ->
           st ∈ NotificationEvent.State <$> events ->
           (position st eventStates <= position r eventStates)%nat).
Proof.
  unfold GetSubjectState.
  pose proof (last_present_spec (collect_states events) eventStates ""
                eventStates_NoDup) as Hspec.
  set (g := last_present (collect_states events) eventStates "") in *.
  assert (forall st, default false (collect_states events !! st) = true
                     <-> st ∈ NotificationEvent.State <$> events) as Hset.
  { intros st. rewrite collect_states_lookup. apply bool_decide_eq_true. }
  assert (forall st, default false (collect_states events !! st) = false
                     <-> st ∉ NotificationEvent.State <$> events) as Hunset.
  { intros st. rewrite collect_states_lookup. apply bool_decide_eq_false. }
  split.
  - intros <-. destruct Hspec as [[Heq Hnone] | (Hin & Hs & Hmax)].
    + left. split; [ done | ]. intros st Hst. by apply Hunset, Hnone.
    + right. split; [ done | ]. split; [ by apply Hset | ].
      intros st Hst Hcarried. apply Hmax; [ done | by apply Hset ].
  - intros [[-> Hnone] | (Hr & Hcarried & Hmax)].
    + destruct Hspec as [[Heq _] | (Hin & Hs & _)]; [ done | ].
      exfalso. apply (Hnone g Hin). by apply Hset.
    + destruct Hspec as [[_ Hnone] | (Hin & Hs & Hmax')].
      * exfalso. specialize (Hnone r Hr). apply Hunset in Hnone. done.
      * apply (position_inj g r eventStates Hin Hr).
        apply Nat.le_antisymm.
        -- apply Hmax; [ done | by apply Hset ].
        -- apply Hmax'; [ done | by apply Hset ].
Qed.

End GetSubjectStateMore.

(** X14. The subject state depends only on which states of the table the
    events carry: two lists that carry the same states of the table have
    the same subject state, whatever the order, the repetitions and the
    events of other states. *)
Theorem GetSubjectState_same_states (events events' : NotificationEvents) :
  (forall st, st ∈ eventStates ->
     (st ∈ NotificationEvent.State <$> events
      <-> st ∈ NotificationEvent.State <$> events')) ->
  GetSubjectState events = GetSubjectState events'.
Proof.
  intros Hsame. unfold GetSubjectState. apply last_present_ext.
  intros st Hst. rewrite !collect_states_lookup.
  apply bool_decide_ext. by apply Hsame.
Qed.

Lemma GetSubjectState_same_states_witness :
  GetSubjectState
    [sample_event "OK" "WARN"; sample_event "OK" "DEL";
     sample_event "WARN" "ERROR"; sample_event "OK" "WARN"]
  = GetSubjectState [sample_event "OK" "ERROR"; sample_event "ERROR" "WARN"].
Proof.
  apply GetSubjectState_same_states. intros st Hst.
  unfold eventStates in Hst.
  repeat (apply elem_of_cons in Hst as [-> | Hst]);
    try (by apply elem_of_nil in Hst);
    split; intros Hin; cbn in *;
    repeat (apply elem_of_cons in Hin as [Hin | Hin];
            [ try discriminate Hin | ]);
    try (by apply elem_of_nil in Hin); in_table.
Defined.

(** X15. The subject state is the empty string exactly when no event
    carries a state of the table; in particular for the empty list. *)
Theorem GetSubjectState_empty_iff (events : NotificationEvents) :
  GetSubjectState events = "" <->
  forall e, e ∈ events -> NotificationEvent.State e ∉ eventStates.
Proof.
  rewrite GetSubjectState_char. split.
  - intros [[_ Hnone] | (Hin & _)]; [ | by apply empty_not_state in Hin ].
    intros e He Hst. apply (Hnone _ Hst).
    apply list_elem_of_fmap. eauto.
  - intros Hnone. left. split; [ done | ]. intros st Hst Hcarried.
    apply list_elem_of_fmap in Hcarried as (e & -> & He).
    by apply (Hnone e He).
Qed.

(** X16. The subject state of two lists put together is the later of
    their subject states in the order of the table. *)
Theorem GetSubjectState_app (events events' : NotificationEvents) :
  GetSubjectState (events ++ events')
  = later_state (GetSubjectState events) (GetSubjectState events').
Proof.
  apply GetSubjectState_char.
  destruct (proj1 (GetSubjectState_char events _) eq_refl)
    as [[Ha Hna] | (Ha & Hca & Hma)];
    destruct (proj1 (GetSubjectState_char events' _) eq_refl)
      as [[Hb Hnb] | (Hb & Hcb & Hmb)];
    unfold later_state; rewrite fmap_app.
  - left. rewrite Hb, decide_True by done. split; [ done | ].
    intros st Hst Hin. apply elem_of_app in Hin as [Hin | Hin];
      [ by apply (Hna st) | by apply (Hnb st) ].
  - right. rewrite decide_False
      by (intros Heq; rewrite Heq in Hb; by apply empty_not_state in Hb).
    rewrite Ha, decide_True by done.
    split; [ done | ]. split; [ apply elem_of_app; by right | ].
    intros st Hst Hin. apply elem_of_app in Hin as [Hin | Hin];
      [ by apply (Hna st) in Hin | by apply Hmb ].
  - right. rewrite Hb, decide_True by done.
    split; [ done | ]. split; [ apply elem_of_app; by left | ].
    intros st Hst Hin. apply elem_of_app in Hin as [Hin | Hin];
      [ by apply Hma | by apply (Hnb st) in Hin ].
  - right. rewrite !decide_False
      by (intros Heq; first [ rewrite Heq in Hb | rewrite Heq in Ha ];
          by eapply empty_not_state).
    destruct (Nat.leb_spec
                (position (GetSubjectState events) eventStates)
                (position (GetSubjectState events') eventStates))
      as [Hle | Hgt].
    + split; [ done | ]. split; [ apply elem_of_app; by right | ].
      intros st Hst Hin. apply elem_of_app in Hin as [Hin | Hin].
      * specialize (Hma st Hst Hin). lia.
      * by apply Hmb.
    + split; [ done | ]. split; [ apply elem_of_app; by left | ].
      intros st Hst Hin. apply elem_of_app in Hin as [Hin | Hin].
      * by apply Hma.
      * specialize (Hmb st Hst Hin). lia.
Qed.

(** X17. A state of the table that some event carries, and that no state
    carried by an event follows in the table, is the subject state, also
    when the list holds events of states outside the table. *)
Theorem GetSubjectState_unique (events : NotificationEvents) (st : string) :
  st ∈ eventStates ->
  (exists e, e ∈ events /\ NotificationEvent.State e = st) ->
  (forall e, e ∈ events ->
     NotificationEvent.State e ∈ eventStates ->
     (position (NotificationEvent.State e) eventStates
      <= position st eventStates)%nat) ->
  GetSubjectState events = st.
Proof.
  intros Hst (e & He & Hcarried) Hmax. apply GetSubjectState_char. right.
  split; [ done | ]. split; [ apply list_elem_of_fmap; eauto | ].
  intros st' Hst' Hin. apply list_elem_of_fmap in Hin as (e' & -> & He').
  by apply Hmax.
Qed.

Lemma GetSubjectState_unique_witness :
  GetSubjectState
    [sample_event "OK" "TEST"; sample_event "OK" "DEL";
     sample_event "OK" "EXCEPTION"]
  = "TEST".
Proof.
  apply GetSubjectState_unique.
  - unfold eventStates. in_table.
  - eexists. split; [ apply list_elem_of_here | reflexivity ].
  - intros e He Hst.
    repeat (apply elem_of_cons in He as [-> | He]);
      try (by apply elem_of_nil in He);
      first [ apply Nat.leb_le; by vm_compute
            | exfalso; revert Hst; unfold eventStates; cbn; not_in_table ].
Defined.

Section IsScheduleAllowsMore.

Lemma day_of_week_bound schedule ts : (day_of_week schedule ts < 7)%nat.
Proof.
  unfold day_of_week.
  pose proof (Z.mod_pos_bound (local_seconds schedule ts `div` 86400 + 3) 7
                ltac:(lia)).
  lia.
Qed.

(** With its seven days, a schedule answers the day test and the window
    test of the civil timestamp. *)
Lemma IsScheduleAllows_week schedule ts :
  civil schedule ts ->
  0 <= ScheduleData.StartOffset schedule < 1440 ->
  0 <= ScheduleData.EndOffset schedule < 1440 ->
  length (ScheduleData.Days schedule) = 7%nat ->
  IsScheduleAllows (Some schedule) ts
  = Some (day_enabled schedule ts
          && in_window (ScheduleData.StartOffset schedule)
                       (ScheduleData.EndOffset schedule)
                       (minute_of_day schedule ts)).
Proof.
  intros Hcivil Hstart Hend Hdays.
  rewrite IsScheduleAllows_civil by done. unfold day_enabled.
  pose proof (day_of_week_bound schedule ts) as Hidx.
  destruct (lookup_lt_is_Some_2 (ScheduleData.Days schedule)
              (day_of_week schedule ts)) as [day ->]; [ lia | done ].
Qed.

End IsScheduleAllowsMore.

(** X18. A schedule whose days are all disabled allows no timestamp at
    all, whatever its window and its timezone offset. *)
Theorem IsScheduleAllows_all_days_disabled (schedule : ScheduleData.t)
    (ts : Z) :
  (7 <= length (ScheduleData.Days schedule))%nat ->
  (forall day, day ∈ ScheduleData.Days schedule ->
     ScheduleDataDay.Enabled day = false) ->
  IsScheduleAllows (Some schedule) ts = Some false.
Proof.
  intros Hdays Hdisabled. unfold IsScheduleAllows.
  set (date := Time.Unix _ 0).
  pose proof (weekday_index date) as Hidx.
  set (idx := Z.to_nat _) in *.
  destruct (lookup_lt_is_Some_2 (ScheduleData.Days schedule) idx)
    as [day Hday]; [ lia | ].
  rewrite Hday. cbn [mbind option_bind].
  rewrite (Hdisabled day); [ done | ].
  apply list_elem_of_lookup. eauto.
Qed.

Lemma IsScheduleAllows_all_days_disabled_witness :
  IsScheduleAllows (Some (ScheduleData.mk (every_day false) 180 0 1439))
                   1500000000
  = Some false.
Proof.
  apply IsScheduleAllows_all_days_disabled; [ cbn; lia | ].
  intros day Hday. cbn in Hday.
  repeat (apply elem_of_cons in Hday as [-> | Hday]); try reflexivity.
  by apply elem_of_nil in Hday.
Defined.

(** X19. For a civil timestamp - the timestamp and the local time between
    0 and 2^62 seconds, the timezone offset between -2^32 and 2^32
    minutes - and a schedule of seven days whose window does not wrap,
    0 <= startOffset <= endOffset < 1440, [IsScheduleAllows] answers true
    exactly when the local day is enabled and the minute of the local day
    lies from startOffset to endOffset, both included. *)
Theorem IsScheduleAllows_plain_window (schedule : ScheduleData.t) (ts : Z) :
  civil schedule ts ->
  0 <= ScheduleData.StartOffset schedule ->
  ScheduleData.StartOffset schedule <= ScheduleData.EndOffset schedule ->
  ScheduleData.EndOffset schedule < 1440 ->
  length (ScheduleData.Days schedule) = 7%nat ->
  IsScheduleAllows (Some schedule) ts
  = Some (day_enabled schedule ts
          && (ScheduleData.StartOffset schedule <=? minute_of_day schedule ts)
          && (minute_of_day schedule ts <=? ScheduleData.EndOffset schedule)).
Proof.
  intros Hcivil Hstart Horder Hend Hdays.
  rewrite IsScheduleAllows_week by (done || lia).
  unfold in_window. rewrite (proj2 (Z.ltb_ge _ _)) by lia.
  by rewrite andb_assoc.
Qed.

Lemma IsScheduleAllows_plain_window_witness :
  IsScheduleAllows (Some (ScheduleData.mk (every_day true) 0 540 1080))
                   (18 * 3600)
  = Some true.
Proof.
  rewrite IsScheduleAllows_plain_window;
    [ by vm_compute | vm_compute; repeat split; discriminate
    | cbn; lia | cbn; lia | cbn; lia | reflexivity ].
Defined.

(** X20. For a civil timestamp - the timestamp and the local time between
    0 and 2^62 seconds, the timezone offset between -2^32 and 2^32
    minutes - and a schedule of seven days whose window wraps past
    midnight, 0 <= endOffset < startOffset < 1440, [IsScheduleAllows]
    answers true exactly when the local day of the timestamp itself is
    enabled and the minute of the local day is before endOffset or after
    startOffset, both bounds excluded; it answers false otherwise. *)
Theorem IsScheduleAllows_wrapping_minutes (schedule : ScheduleData.t)
    (ts : Z) :
  civil schedule ts ->
  0 <= ScheduleData.EndOffset schedule ->
  ScheduleData.EndOffset schedule < ScheduleData.StartOffset schedule ->
  ScheduleData.StartOffset schedule < 1440 ->
  length (ScheduleData.Days schedule) = 7%nat ->
  (IsScheduleAllows (Some schedule) ts = Some true <->
   day_enabled schedule ts = true
   /\ (minute_of_day schedule ts < ScheduleData.EndOffset schedule
       \/ ScheduleData.StartOffset schedule < minute_of_day schedule ts))
  /\ (IsScheduleAllows (Some schedule) ts = Some true
      \/ IsScheduleAllows (Some schedule) ts = Some false).
Proof.
  intros Hcivil Hend Horder Hstart Hdays.
  rewrite IsScheduleAllows_week by (done || lia).
  unfold in_window. rewrite (proj2 (Z.ltb_lt _ _)) by lia.
  destruct (day_enabled schedule ts);
    destruct (Z.ltb_spec (minute_of_day schedule ts)
                         (ScheduleData.EndOffset schedule));
    destruct (Z.ltb_spec (ScheduleData.StartOffset schedule)
                         (minute_of_day schedule ts));
    cbn; (split; [ | first [ by left | by right ] ]);
    (split;
     [ intros Hallowed; try discriminate Hallowed; (split; [ done | lia ])
     | intros [Hday Hminute]; try discriminate Hday;
       first [ reflexivity | lia ] ]).
Qed.

Lemma IsScheduleAllows_wrapping_minutes_witness :
  IsScheduleAllows (Some night_schedule) (22 * 3600 + 60) = Some true.
Proof.
  apply (proj1 (IsScheduleAllows_wrapping_minutes night_schedule
                  (22 * 3600 + 60)
                  ltac:(vm_compute; repeat split; discriminate)
                  ltac:(cbn; lia) ltac:(cbn; lia) ltac:(cbn; lia)
                  eq_refl)).
  split; [ reflexivity | right; by vm_compute ].
Defined.

(** X21. The seconds within a minute are ignored: two timestamps with the
    same whole number of minutes get the same answer. *)
Theorem IsScheduleAllows_same_minute (schedule : option ScheduleData.t)
    (ts ts' : Z) :
  ts ÷ 60 = ts' ÷ 60 ->
  IsScheduleAllows schedule ts = IsScheduleAllows schedule ts'.
Proof.
  intros Hminute. destruct schedule as [schedule |]; [ | reflexivity ].
  unfold IsScheduleAllows.
  assert (Int64.sub ts (Int64.rem ts 60) = Int64.sub ts' (Int64.rem ts' 60))
    as ->; [ | reflexivity ].
  unfold Int64.sub, Int64.rem. f_equal.
  pose proof (Z.quot_rem' ts 60). pose proof (Z.quot_rem' ts' 60). lia.
Qed.

Lemma IsScheduleAllows_same_minute_witness :
  IsScheduleAllows (Some night_schedule) (23 * 3600 + 59)
  = IsScheduleAllows (Some night_schedule) (23 * 3600).
Proof. apply IsScheduleAllows_same_minute. reflexivity. Defined.

(** X22. The schedule is weekly on civil timestamps: when the timestamp
    and the timestamp one week later are both civil - timestamp and local
    time between 0 and 2^62 seconds, timezone offset between -2^32 and 2^32
    minutes - and both offsets lie within the day, the two timestamps get
    the same answer. *)
Theorem IsScheduleAllows_weekly (schedule : ScheduleData.t) (ts : Z) :
  civil schedule ts -> civil schedule (ts + 604800) ->
  0 <= ScheduleData.StartOffset schedule < 1440 ->
  0 <= ScheduleData.EndOffset schedule < 1440 ->
  IsScheduleAllows (Some schedule) (ts + 604800)
  = IsScheduleAllows (Some schedule) ts.
Proof.
  intros Hcivil Hcivil' Hstart Hend.
  rewrite !IsScheduleAllows_civil by done.
  assert (local_seconds schedule (ts + 604800)
          = local_seconds schedule ts + 7 * 86400) as Hlocal.
  { unfold local_seconds.
    replace (ts + 604800) with (ts + 10080 * 60) by lia.
    rewrite Z.mod_add by lia. lia. }
  unfold day_of_week, minute_of_day. rewrite Hlocal.
  rewrite Z.mod_add, Z.div_add by lia.
  replace (local_seconds schedule ts `div` 86400 + 7 + 3)
    with (local_seconds schedule ts `div` 86400 + 3 + 1 * 7) by lia.
  by rewrite Z.mod_add by lia.
Qed.

Lemma IsScheduleAllows_weekly_witness :
  IsScheduleAllows (Some night_schedule) (1500000000 + 604800)
  = IsScheduleAllows (Some night_schedule) 1500000000.
Proof.
  apply IsScheduleAllows_weekly;
    [ vm_compute; repeat split; discriminate
    | vm_compute; repeat split; discriminate
    | cbn; lia | cbn; lia ].
Defined.

(** X23. The timezone offset is subtracted, on civil timestamps: when the
    timestamp is civil for the schedule - timestamp and local time between
    0 and 2^62 seconds, tzOffset between -2^32 and 2^32 minutes - and the
    timestamp tzOffset minutes earlier is civil in UTC, so not negative,
    and both offsets lie within the day, the schedule answers at the
    timestamp as the same schedule with offset 0 answers tzOffset minutes
    earlier. *)
Theorem IsScheduleAllows_timezone (schedule : ScheduleData.t) (ts : Z) :
  civil schedule ts ->
  civil (in_utc schedule) (ts - ScheduleData.TimezoneOffset schedule * 60) ->
  0 <= ScheduleData.StartOffset schedule < 1440 ->
  0 <= ScheduleData.EndOffset schedule < 1440 ->
  IsScheduleAllows (Some schedule) ts
  = IsScheduleAllows (Some (in_utc schedule))
      (ts - ScheduleData.TimezoneOffset schedule * 60).
Proof.
  intros Hcivil Hcivil' Hstart Hend.
  rewrite !IsScheduleAllows_civil by done.
  assert (local_seconds (in_utc schedule)
            (ts - ScheduleData.TimezoneOffset schedule * 60)
          = local_seconds schedule ts) as Hlocal.
  { unfold local_seconds, in_utc. cbn [ScheduleData.TimezoneOffset].
    replace (ts - ScheduleData.TimezoneOffset schedule * 60)
      with (ts + (- ScheduleData.TimezoneOffset schedule) * 60) by lia.
    rewrite Z.mod_add by lia. lia. }
  unfold day_of_week, minute_of_day. rewrite Hlocal. reflexivity.
Qed.

Lemma IsScheduleAllows_timezone_witness :
  IsScheduleAllows (Some (ScheduleData.mk (every_day true) (-180) 540 1080))
                   1500000000
  = IsScheduleAllows (Some (ScheduleData.mk (every_day true) 0 540 1080))
                     (1500000000 + 180 * 60).
Proof.
  apply (IsScheduleAllows_timezone
           (ScheduleData.mk (every_day true) (-180) 540 1080) 1500000000);
    [ vm_compute; repeat split; discriminate
    | vm_compute; repeat split; discriminate
    | cbn; lia | cbn; lia ].
Defined.

Section GetTagsMore.

Lemma append_nil_l (a : string) : ("" ++ a)%string = a.
Proof. reflexivity. Qed.

Lemma append_cons x (a b : string) :
  (String x a ++ b)%string = String x (a ++ b)%string.
Proof. reflexivity. Qed.

Lemma append_assoc (a b c : string) : ((a ++ b) ++ c = a ++ (b ++ c))%string.
Proof.
  induction a as [| x a IH]; [ done | ].
  by rewrite !append_cons, IH.
Qed.

Lemma append_empty_r (a : string) : (a ++ "")%string = a.
Proof.
  induction a as [| x a IH]; [ done | ]. by rewrite append_cons, IH.
Qed.

Lemma append_length (a b : string) :
  String.length (a ++ b) = (String.length a + String.length b)%nat.
Proof.
  induction a as [| x a IH]; [ done | ].
  rewrite append_cons. cbn [String.length]. by rewrite IH.
Qed.

Lemma bracketed_length tag :
  String.length (bracketed tag) = (String.length tag + 2)%nat.
Proof.
  unfold bracketed. rewrite append_cons, append_nil_l.
  cbn [String.length]. rewrite append_length. cbn [String.length]. lia.
Qed.

(** The loop of [GetTags] from a buffer already filled. *)
Lemma tags_loop buffer tags :
  foldl (fun buffer tag => buffer ++ ("[" ++ tag ++ "]"))%string buffer tags
  = (buffer ++ foldr (fun tag rest => bracketed tag ++ rest) "" tags)%string.
Proof.
  revert buffer. induction tags as [| tag tags IH]; intros buffer;
    cbn [foldl foldr].
  - by rewrite append_empty_r.
  - rewrite IH. unfold bracketed. by rewrite !append_assoc.
Qed.

Lemma GetTags_foldr trigger :
  GetTags trigger
  = foldr (fun tag rest => bracketed tag ++ rest)%string ""
          (TriggerData.Tags trigger).
Proof. unfold GetTags. by rewrite tags_loop. Qed.

Lemma occurs_cons c x s : occurs c (String x s) <-> c = x \/ occurs c s.
Proof. unfold occurs. cbn. apply elem_of_cons. Qed.

(** A string is cut in one way only at its first closing bracket. *)
Lemma cut_at_bracket (t t' r r' : string) :
  ~ occurs "]" t -> ~ occurs "]" t' ->
  (t ++ String "]" r = t' ++ String "]" r')%string ->
  t = t' /\ r = r'.
Proof.
  revert t'. induction t as [| x t IH]; intros t' Ht Ht' Heq.
  - destruct t' as [| x' t']; rewrite ?append_nil_l, ?append_cons in Heq.
    + by injection Heq as ->.
    + injection Heq as <- _. exfalso. apply Ht', occurs_cons. by left.
  - destruct t' as [| x' t']; rewrite ?append_nil_l, ?append_cons in Heq.
    + injection Heq as -> _. exfalso. apply Ht, occurs_cons. by left.
    + injection Heq as -> Heq.
      destruct (IH t') as [-> ->]; [ | | done | done ].
      * intros Hin. apply Ht, occurs_cons. by right.
      * intros Hin. apply Ht', occurs_cons. by right.
Qed.

End GetTagsMore.

(** X24. The tags can be read back from the string of [GetTags]: two
    triggers whose tags hold no closing bracket and which give the same
    string have the same tags. *)
Theorem GetTags_injective (trigger trigger' : TriggerData.t) :
  (forall tag, tag ∈ TriggerData.Tags trigger -> ~ occurs "]" tag) ->
  (forall tag, tag ∈ TriggerData.Tags trigger' -> ~ occurs "]" tag) ->
  GetTags trigger = GetTags trigger' ->
  TriggerData.Tags trigger = TriggerData.Tags trigger'.
Proof.
  rewrite !GetTags_foldr.
  generalize (TriggerData.Tags trigger') as tags'.
  generalize (TriggerData.Tags trigger) as tags.
  induction tags as [| tag tags IH]; intros [| tag' tags'] Hfree Hfree' Heq;
    cbn [foldr] in Heq; unfold bracketed in Heq;
    rewrite ?append_cons, ?append_nil_l in Heq; try done.
  injection Heq as Heq. rewrite !append_assoc, !append_cons in Heq.
  apply cut_at_bracket in Heq as [-> Heq];
    [ | apply Hfree, list_elem_of_here | apply Hfree', list_elem_of_here ].
  f_equal. apply IH; [ | | done ].
  - intros t Ht. apply Hfree. by apply list_elem_of_further.
  - intros t Ht. apply Hfree'. by apply list_elem_of_further.
Qed.

Lemma GetTags_injective_witness :
  TriggerData.Tags (sample_trigger_data ["cpu"; "disk"])
  = TriggerData.Tags
      (TriggerData.mk "u" "other" "" [] (S754_zero false) (S754_zero false)
                      true ["cpu"; "disk"]).
Proof.
  apply GetTags_injective; [ | | reflexivity ];
    intros tag Htag; cbn in Htag;
    repeat (apply elem_of_cons in Htag as [-> | Htag]);
    try (by apply elem_of_nil in Htag);
    unfold occurs; cbn; not_in_table.
Defined.

(** X25. [GetTags] writes every tag between brackets, in order: the string
    of a trigger whose tags are those of two triggers put together is the
    two strings put together, and its length is the number of bytes of the
    tags plus two for each tag. *)
Theorem GetTags_append (trigger left right : TriggerData.t) :
  TriggerData.Tags trigger
  = (TriggerData.Tags left ++ TriggerData.Tags right)%list ->
  GetTags trigger = (GetTags left ++ GetTags right)%string
  /\ String.length (GetTags trigger)
     = foldr (fun tag n => String.length tag + 2 + n)%nat 0%nat
             (TriggerData.Tags trigger).
Proof.
  intros Htags. rewrite !GetTags_foldr, Htags. split.
  - generalize (TriggerData.Tags left) as tags.
    induction tags as [| tag tags IH]; [ done | ].
    cbn [app foldr]. rewrite IH. by rewrite !append_assoc.
  - generalize (TriggerData.Tags left ++ TriggerData.Tags right)%list as tags.
    induction tags as [| tag tags IH]; [ done | ].
    cbn [foldr]. rewrite append_length, bracketed_length, IH. lia.
Qed.

Lemma GetTags_append_witness :
  GetTags (sample_trigger_data ["cpu"; "disk"; "prod"]) = "[cpu][disk][prod]"
  /\ String.length (GetTags (sample_trigger_data ["cpu"; "disk"; "prod"]))
     = 17%nat.
Proof.
  apply (GetTags_append (sample_trigger_data ["cpu"; "disk"; "prod"])
           (sample_trigger_data ["cpu"])
           (sample_trigger_data ["disk"; "prod"])).
  reflexivity.
Defined.

Section IsSimpleMore.

Lemma ContainsAny_spec s chars :
  ContainsAny s chars = true <->
  exists c, occurs c chars /\ occurs c s.
Proof.
  unfold ContainsAny, occurs. rewrite existsb_exists. split.
  - intros (c & Hc & Hex). apply existsb_exists in Hex as (c' & Hc' & Heq).
    apply Ascii.eqb_eq in Heq as ->.
    exists c'. split; by apply list_elem_of_In.
  - intros (c & Hchars & Hs). exists c. split; [ by apply list_elem_of_In | ].
    apply existsb_exists. exists c.
    split; [ by apply list_elem_of_In | apply Ascii.eqb_refl ].
Qed.

Lemma no_wildcard_spec patterns :
  no_wildcard patterns = true <->
  forall pattern, pattern ∈ patterns -> ContainsAny pattern "*{?[" = false.
Proof.
  induction patterns as [| p patterns IH]; simpl.
  - split; [ | done ]. intros _ pattern Hin. by apply elem_of_nil in Hin.
  - destruct (ContainsAny p "*{?[") eqn:Hp.
    + split; [ done | ]. intros Hall.
      specialize (Hall p (list_elem_of_here _ _)). congruence.
    + rewrite IH. split.
      * intros Hall pattern Hin.
        apply elem_of_cons in Hin as [-> | Hin]; [ done | by apply Hall ].
      * intros Hall pattern Hin. apply Hall. by apply list_elem_of_further.
Qed.

End IsSimpleMore.

(** X26. A trigger is simple exactly when it has at most one target, at
    most one pattern, and no pattern holds any of the wildcard characters
    star, opening brace, question mark and opening bracket. *)
Theorem IsSimple_iff (trigger : Trigger.t) :
  IsSimple trigger = true <->
  (length (Trigger.Targets trigger) <= 1)%nat
  /\ (length (Trigger.Patterns trigger) <= 1)%nat
  /\ forall pattern c,
       pattern ∈ Trigger.Patterns trigger ->
       occurs c "*{?[" -> ~ occurs c pattern.
Proof.
  unfold IsSimple.
  destruct (Nat.ltb_spec 1 (length (Trigger.Targets trigger))) as [Ht | Ht];
    cbn [orb].
  { split; [ done | ]. intros (Hle & _). lia. }
  destruct (Nat.ltb_spec 1 (length (Trigger.Patterns trigger))) as [Hp | Hp].
  { split; [ done | ]. intros (_ & Hle & _). lia. }
  rewrite no_wildcard_spec. split.
  - intros Hall. split; [ done | ]. split; [ done | ].
    intros pattern c Hin Hc Hoccurs.
    assert (ContainsAny pattern "*{?[" = true) as Htrue
      by (apply ContainsAny_spec; eauto).
    rewrite (Hall pattern Hin) in Htrue. discriminate.
  - intros (_ & _ & Hnone) pattern Hin.
    destruct (ContainsAny pattern "*{?[") eqn:Hc; [ exfalso | done ].
    apply ContainsAny_spec in Hc as (c & Hchars & Hoccurs).
    by apply (Hnone pattern c).
Qed.

Section SearchTermsFacts.

Lemma occurs_nil c : ~ occurs c "".
Proof. unfold occurs. cbn. apply not_elem_of_nil. Qed.

Lemma occurs_append c a b :
  occurs c (a ++ b)%string <-> occurs c a \/ occurs c b.
Proof.
  induction a as [| x a IH].
  - rewrite append_nil_l. split; [ by right | ].
    intros [Hin | Hin]; [ by apply occurs_nil in Hin | done ].
  - rewrite append_cons, !occurs_cons, IH. tauto.
Qed.

Lemma append_nonempty_r (a : string) c : (a ++ String c "")%string <> "".
Proof. by destruct a. Qed.

Lemma is_special_space : is_special " " = false.
Proof. by vm_compute. Qed.

Lemma ascii_space_facts c :
  c ∈ ascii_space ->
  byte c < 128 /\ is_special c = false /\ IsSpace (byte c) = true.
Proof.
  unfold ascii_space. cbn [map]. intros Hin.
  repeat (apply elem_of_cons in Hin as [-> | Hin]);
    try (by apply elem_of_nil in Hin); by vm_compute.
Qed.

Lemma space_in_ascii_space : " "%char ∈ ascii_space.
Proof. unfold ascii_space. cbn. in_table. Qed.

(** An ASCII byte that [IsSpace] accepts is one of the six white space
    characters of ASCII. *)
Lemma IsSpace_ascii c :
  byte c < 128 -> IsSpace (byte c) = true -> c ∈ ascii_space.
Proof.
  destruct c as [[] [] [] [] [] [] [] []]; intros Hlow Hspace;
    vm_compute in Hlow, Hspace; try discriminate;
    unfold ascii_space; cbn; in_table.
Qed.

Lemma decodeRune_ascii c rest :
  byte c < 128 -> decodeRune (String c rest) = (byte c, 1%nat).
Proof.
  intros Hlow. unfold decodeRune. cbv zeta.
  by rewrite (proj2 (Z.ltb_lt _ _)) by done.
Qed.

(** The bytes that a code point spans after its first byte are not
    ASCII. *)
Lemma decodeRune_high_bytes c rest :
  high_bytes ((decodeRune (String c rest)).2 - 1) rest.
Proof.
  unfold decodeRune, continuation. cbv zeta.
  repeat match goal with
         | |- context [ if ?b then _ else _ ] => destruct b eqn:?
         | |- context [ match ?s with EmptyString => _ | String _ _ => _ end ] =>
           destruct s
         end;
    cbn; try exact I;
    repeat match goal with
           | H : (_ && _) = true |- _ => apply andb_true_iff in H as [? ?]
           | H : (_ <=? _) = true |- _ => apply Z.leb_le in H
           end;
    repeat split; lia.
Qed.

(** The invariant of the loop of [Fields] on a string free of the
    characters of the class: every field read is not empty and holds
    neither a character of the class nor ASCII white space. *)
Lemma scan_fields_clean s skip field term :
  (forall c, occurs c s -> is_special c = false) ->
  high_bytes skip s ->
  (forall f, field = Some f ->
     f <> "" /\ forall c, occurs c f ->
                  is_special c = false /\ c ∉ ascii_space) ->
  term ∈ scan_fields s skip field ->
  term <> "" /\ forall c, occurs c term ->
                   is_special c = false /\ c ∉ ascii_space.
Proof.
  revert skip field.
  induction s as [| c rest IH]; intros skip field Hinput Hhigh Hfield Hterm.
  - cbn in Hterm. destruct field as [f |].
    + apply list_elem_of_singleton in Hterm as ->. by apply Hfield.
    + by apply elem_of_nil in Hterm.
  - assert (forall c', occurs c' rest -> is_special c' = false) as Hrest.
    { intros c' Hin. apply Hinput, occurs_cons. by right. }
    assert (is_special c = false) as Hc.
    { apply Hinput, occurs_cons. by left. }
    assert (forall f,
               (f <> "" /\ forall c', occurs c' f ->
                             is_special c' = false /\ c' ∉ ascii_space) \/
               f = "" ->
               c ∉ ascii_space ->
               (f ++ String c "")%string <> ""
               /\ forall c', occurs c' (f ++ String c "")%string ->
                    is_special c' = false /\ c' ∉ ascii_space) as Hgrow.
    { intros f Hf Hnot. split; [ apply append_nonempty_r | ].
      intros c' Hin. apply occurs_append in Hin as [Hin | Hin].
      - destruct Hf as [[_ Hf] | ->]; [ by apply Hf | ].
        by apply occurs_nil in Hin.
      - apply occurs_cons in Hin as [-> | Hin]; [ done | ].
        by apply occurs_nil in Hin. }
    cbn [scan_fields] in Hterm. destruct skip as [| skip].
    + pose proof (decodeRune_high_bytes c rest) as Hspan.
      destruct (decodeRune (String c rest)) as [r width] eqn:Hrune.
      cbn [snd] in Hspan.
      destruct (IsSpace r) eqn:Hspace.
      * destruct field as [f |].
        -- apply elem_of_cons in Hterm as [-> | Hterm];
             [ by apply Hfield | ].
           by apply (IH (width - 1)%nat None).
        -- by apply (IH (width - 1)%nat None).
      * assert (c ∉ ascii_space) as Hnot.
        { intros Hin. apply ascii_space_facts in Hin as (Hlow & _ & Htrue).
          rewrite (decodeRune_ascii c rest Hlow) in Hrune.
          injection Hrune as <- _. congruence. }
        apply (IH (width - 1)%nat
                  (Some (default "" field ++ String c "")%string));
          [ done | done | | done ].
        intros f [= <-]. apply Hgrow; [ | done ].
        destruct field as [f |]; [ left; by apply Hfield | by right ].
    + destruct Hhigh as [Hbyte Hhigh].
      assert (c ∉ ascii_space) as Hnot.
      { intros Hin. apply ascii_space_facts in Hin as (Hlow & _). lia. }
      apply (IH skip (option_map (fun f => (f ++ String c "")%string) field));
        [ done | done | | done ].
      intros f Hf. destruct field as [f0 |]; [ | discriminate ].
      injection Hf as <-. apply Hgrow; [ left; by apply Hfield | done ].
Qed.

Lemma escapeString_clean s c :
  occurs c (escapeString s) -> is_special c = false.
Proof.
  induction s as [| x s IH]; cbn [escapeString]; intros Hin.
  - by apply occurs_nil in Hin.
  - apply occurs_cons in Hin as [-> | Hin]; [ | by apply IH ].
    destruct (is_special x) eqn:Hx; [ apply is_special_space | done ].
Qed.

Lemma escapeString_plain s :
  (forall c, occurs c s -> is_special c = false) -> escapeString s = s.
Proof.
  induction s as [| x s IH]; intros Hfree; [ done | ].
  cbn [escapeString]. rewrite (Hfree x) by (apply occurs_cons; by left).
  f_equal. apply IH. intros c Hin. apply Hfree, occurs_cons. by right.
Qed.

Lemma escapeString_append a b :
  escapeString (a ++ b) = (escapeString a ++ escapeString b)%string.
Proof.
  induction a as [| x a IH]; [ done | ].
  rewrite append_cons. cbn [escapeString]. by rewrite append_cons, IH.
Qed.

Lemma escapeString_length s :
  String.length (escapeString s) = String.length s.
Proof. induction s as [| x s IH]; cbn; [ done | by rewrite IH ]. Qed.

(** A separator is white space once escaped. *)
Lemma escaped_separator c :
  separator c ->
  (if is_special c then " "%char else c) ∈ ascii_space.
Proof.
  intros [Hspecial | Hspace].
  - rewrite Hspecial. apply space_in_ascii_space.
  - by rewrite (proj1 (proj2 (ascii_space_facts c Hspace))).
Qed.

(** [Fields] at a white space character of ASCII: the field being read
    ends there. *)
Lemma scan_fields_space c rest field :
  c ∈ ascii_space ->
  scan_fields (String c rest) 0 field
  = match field with
    | Some f => f :: scan_fields rest 0 None
    | None => scan_fields rest 0 None
    end.
Proof.
  intros Hspace. apply ascii_space_facts in Hspace as (Hlow & _ & Htrue).
  cbn [scan_fields]. rewrite (decodeRune_ascii c rest Hlow), Htrue.
  reflexivity.
Qed.

(** [Fields] along plain characters: they join the field being read. *)
Lemma scan_fields_word w rest field :
  w <> "" ->
  (forall c, occurs c w -> plain c) ->
  scan_fields (w ++ rest) 0 field
  = scan_fields rest 0 (Some (default "" field ++ w)%string).
Proof.
  revert field. induction w as [| c w IH]; intros field Hne Hplain; [ done | ].
  destruct (Hplain c) as (Hlow & _ & Hnot); [ apply occurs_cons; by left | ].
  assert (IsSpace (byte c) = false) as Hfalse.
  { destruct (IsSpace (byte c)) eqn:Hspace; [ | done ].
    by apply IsSpace_ascii in Hspace. }
  rewrite append_cons. cbn [scan_fields].
  rewrite (decodeRune_ascii c _ Hlow), Hfalse. cbn [Nat.sub].
  destruct w as [| c' w'].
  - rewrite append_nil_l. reflexivity.
  - rewrite IH; [ | done | intros x Hx; apply Hplain, occurs_cons; by right ].
    cbn [default from_option id]. do 2 f_equal.
    by rewrite append_assoc, append_cons, append_nil_l.
Qed.

End SearchTermsFacts.

(** X27. [escapeString] keeps the length of the string, leaves no
    character of its class in the result, changes nothing in a string free
    of these characters, and so is idempotent. *)
Theorem escapeString_properties (original : string) :
  String.length (escapeString original) = String.length original
  /\ (forall c, occurs c (escapeString original) -> is_special c = false)
  /\ ((forall c, occurs c original -> is_special c = false) ->
      escapeString original = original)
  /\ escapeString (escapeString original) = escapeString original.
Proof.
  split; [ apply escapeString_length | ].
  split; [ apply escapeString_clean | ].
  split; [ apply escapeString_plain | ].
  apply escapeString_plain, escapeString_clean.
Qed.

Lemma escapeString_properties_witness :
  escapeString "disk usage" = "disk usage".
Proof.
  apply (proj1 (proj2 (proj2 (escapeString_properties "disk usage")))).
  intros c Hin. unfold occurs in Hin. cbn in Hin.
  repeat (apply elem_of_cons in Hin as [-> | Hin]);
    try (by apply elem_of_nil in Hin); by vm_compute.
Defined.

(** X28. Every term of [splitStringToTerms] is a non-empty string that
    holds no character of the class of [escapeString] and no white space
    character of ASCII. *)
Theorem splitStringToTerms_terms (searchString term : string) :
  term ∈ SearchTerms.splitStringToTerms searchString ->
  term <> ""
  /\ forall c, occurs c term -> is_special c = false /\ c ∉ ascii_space.
Proof.
  unfold SearchTerms.splitStringToTerms, Fields.
  apply scan_fields_clean; [ apply escapeString_clean | exact I | done ].
Qed.

Lemma splitStringToTerms_terms_witness :
  "cpu" <> ""
  /\ forall c, occurs c "cpu" -> is_special c = false /\ c ∉ ascii_space.
Proof.
  apply (splitStringToTerms_terms "load.cpu (5m)" "cpu").
  vm_compute. in_table.
Defined.

(** X29. A search string made of characters of the class and of ASCII
    white space only, the empty string among them, gives no term. *)
Theorem splitStringToTerms_separators_only (searchString : string) :
  (forall c, occurs c searchString -> separator c) ->
  SearchTerms.splitStringToTerms searchString = [].
Proof.
  unfold SearchTerms.splitStringToTerms, Fields.
  induction searchString as [| c rest IH]; intros Hsep; [ done | ].
  cbn [escapeString]. rewrite scan_fields_space.
  - apply IH. intros c' Hin. apply Hsep, occurs_cons. by right.
  - apply escaped_separator, Hsep, occurs_cons. by left.
Qed.

Lemma splitStringToTerms_separators_only_witness :
  SearchTerms.splitStringToTerms " -_ ." = [].
Proof.
  apply splitStringToTerms_separators_only.
  intros c Hin. unfold occurs in Hin. cbn in Hin. unfold separator.
  repeat (apply elem_of_cons in Hin as [-> | Hin]);
    try (by apply elem_of_nil in Hin);
    first [ left; by vm_compute | right; apply space_in_ascii_space ].
Defined.

(** X30. [splitStringToTerms] cuts a search string of plain words at its
    separators: a separator at the head is dropped, a word followed by a
    separator is the first term, and a word alone is the only term. *)
Theorem splitStringToTerms_words (word rest : string) (sep : Ascii.ascii) :
  word <> "" ->
  (forall c, occurs c word -> plain c) ->
  separator sep ->
  SearchTerms.splitStringToTerms (String sep rest)
  = SearchTerms.splitStringToTerms rest
  /\ SearchTerms.splitStringToTerms (word ++ String sep rest)
     = word :: SearchTerms.splitStringToTerms rest
  /\ SearchTerms.splitStringToTerms word = [word].
Proof.
  intros Hne Hplain Hsep. unfold SearchTerms.splitStringToTerms, Fields.
  assert (escapeString word = word) as Hword.
  { apply escapeString_plain. intros c Hin. by apply Hplain. }
  split; [ | split ].
  - cbn [escapeString]. by rewrite scan_fields_space
      by by apply escaped_separator.
  - rewrite escapeString_append, Hword. cbn [escapeString].
    rewrite scan_fields_word by done.
    by rewrite scan_fields_space by by apply escaped_separator.
  - rewrite Hword, <- (append_empty_r word) at 1.
    by rewrite scan_fields_word by done.
Qed.

Lemma splitStringToTerms_words_witness :
  SearchTerms.splitStringToTerms "disk-usage"
  = "disk" :: SearchTerms.splitStringToTerms "usage".
Proof.
  apply (splitStringToTerms_words "disk" "usage" "-"); [ done | | ].
  - intros c Hin. unfold occurs in Hin. cbn in Hin. unfold plain.
    repeat (apply elem_of_cons in Hin as [-> | Hin]);
      try (by apply elem_of_nil in Hin);
      (split; [ by vm_compute | split; [ by vm_compute | ] ]);
      unfold ascii_space; cbn; not_in_table.
  - left. by vm_compute.
Defined.
